(** * usbdrive: mount a disk image as USB mass storage

    A shallow embedding of the Go sources (utils.go, configfs.go, udc.go,
    sysfs.go, config.go, main.go) over a small model of the kernel's
    virtual file tree, followed by what is proved of them.

    Modelling conventions.
    - Go strings are byte strings ([string]); [strings.TrimSpace] and
      [strings.Fields] take white space as [unicode.IsSpace] does, rune by
      rune of the UTF-8 text.
    - Paths are Go strings, joined and cleaned as [path/filepath] does on
      Unix.
    - The file tree is a tree of nodes (file, directory with its entries
      sorted by name, symbolic link).  Entry names are file names: not
      empty, without slash, neither [.] nor [..].
    - The backends work on the attribute files of configfs and sysfs,
      through [readFile], [writeFile], [dirExists], [fileExists] and
      [pathExists] and the directory calls; these go to the calls of
      [OS], which act on the node at the place a path resolves to,
      element by element: no path of the backends is taken to lead
      through a symbolic link (the link of a function into a config is a
      node of its own, which the code creates and tests for).
    - The image and the configuration file are paths of the user's.
      [validateImage], [validateSafePath] and [loadConfig] call
      [os.Stat], [os.Open], [os.Readlink] and [os.ReadFile] on them, which
      are the calls of [Namei]: they resolve a path as the kernel does,
      down the tree from the root or the working directory, through every
      symbolic link on the way and, but for [os.Readlink], through a link
      at the end as well, and give up with [ELOOP] after 40 links.  Where
      a path without links is found, the calls of the two modules agree
      ([Stat_plain]).
    - [/proc/mounts] is kernel-generated text and is a field of the world,
      not a node of the tree.
    - The commands run as root ([PreRunE] requires it), for whom
      permission bits do not restrict open: a regular file can be read and
      written.
    - A directory made by [os_MkdirAll] starts empty: the attribute files
      configfs itself puts into a new gadget or function directory are
      not modelled.
    - Logging ([logger.Info], [logger.Warn]) has no effect on the tree and
      is left out.

    The repository holds a second version of configfs.go, whose
    [findGadgetRoot] creates a gadget when none is active; its functions
    that differ are in the module [ConfigFSCreate]. *)

From Stdlib Require Import Ascii.
From stdpp Require Import gmap strings list.

(** ** Strings *)

Module Strings.

Definition LF : ascii := Ascii.ascii_of_nat 10.
Definition CR : ascii := Ascii.ascii_of_nat 13.
Definition nl : string := String LF "".

(** [unicode.White_Space], the runes [unicode.IsSpace] accepts: \t, \n,
    \v, \f, \r and the space; U+0085 and U+00A0; U+1680; U+2000 to
    U+200A; U+2028, U+2029, U+202F, U+205F and U+3000. *)
Definition White_Space : list N :=
  ([0x09; 0x0A; 0x0B; 0x0C; 0x0D; 0x20; 0x85; 0xA0; 0x1680;
    0x2000; 0x2001; 0x2002; 0x2003; 0x2004; 0x2005; 0x2006; 0x2007; 0x2008;
    0x2009; 0x200A; 0x2028; 0x2029; 0x202F; 0x205F; 0x3000])%N.

(** The UTF-8 encoding of a rune. *)
Definition utf8 (r : N) : string :=
  let byte (n : N) := String (Ascii.ascii_of_N n) "" in
  let cont (n : N) := byte (0x80 + n mod 0x40)%N in
  if (r <? 0x80)%N then byte r
  else if (r <? 0x800)%N then byte (0xC0 + r / 0x40)%N +:+ cont r
  else if (r <? 0x10000)%N then
    byte (0xE0 + r / 0x1000)%N +:+ cont (r / 0x40)%N +:+ cont r
  else
    byte (0xF0 + r / 0x40000)%N +:+ cont (r / 0x1000)%N +:+ cont (r / 0x40)%N
    +:+ cont r.

(** The bytes [x] are one white space rune.  (Go decodes a string rune by
    rune; bytes that are no valid encoding decode to [utf8.RuneError],
    which is no white space.  The first byte of an encoding below is never
    a continuation byte, so that an encoding found in a string, at its
    front, at its end or inside, is a rune of the string.) *)
Definition spaceRune (x : string) : bool := bool_decide (x ∈ map utf8 White_Space).

(** [strings.TrimLeftFunc s unicode.IsSpace]: without the white space
    runes at the front; these are one to three bytes long. *)
Fixpoint trimLeft (s : string) : string :=
  match s with
  | String a s1 =>
      if spaceRune (String a "") then trimLeft s1
      else
        match s1 with
        | String b s2 =>
            if spaceRune (String a (String b "")) then trimLeft s2
            else
              match s2 with
              | String c s3 =>
                  if spaceRune (String a (String b (String c ""))) then trimLeft s3
                  else s
              | EmptyString => s
              end
        | EmptyString => s
        end
  | EmptyString => s
  end.

(** [strings.TrimRightFunc s unicode.IsSpace]: without the white space
    runes at the end.  With [r] what is left of the rest of the string,
    the whole is white space when the first byte completes a rune with
    [r]. *)
Fixpoint trimRight (s : string) : string :=
  match s with
  | String c s' =>
      let r := trimRight s' in
      if spaceRune (String c r) then EmptyString else String c r
  | EmptyString => EmptyString
  end.

(** [strings.TrimSpace] *)
Definition TrimSpace (s : string) : string := trimRight (trimLeft s).

(** [strings.HasPrefix s p] *)
Definition HasPrefix (s p : string) : bool := String.prefix p s.

(** The number of bytes of the white space rune [s] begins with; 0 when
    it begins with none. *)
Definition spaceWidth (s : string) : nat :=
  match s with
  | String a s1 =>
      if spaceRune (String a "") then 1
      else
        match s1 with
        | String b s2 =>
            if spaceRune (String a (String b "")) then 2
            else
              match s2 with
              | String c _ =>
                  if spaceRune (String a (String b (String c ""))) then 3 else 0
              | EmptyString => 0
              end
        | EmptyString => 0
        end
  | EmptyString => 0
  end.

Definition startsWord (s : string) : bool :=
  match s with
  | String _ _ => spaceWidth s =? 0
  | EmptyString => false
  end.

(** The fields of [s], of which the first [skip] bytes are the rest of a
    white space rune. *)
Fixpoint fieldsFrom (skip : nat) (s : string) : list string :=
  match s with
  | EmptyString => []
  | String c s' =>
      match skip with
      | S k => fieldsFrom k s'
      | 0 =>
          match spaceWidth s with
          | S k => fieldsFrom k s'
          | 0 =>
              if startsWord s' then
                match fieldsFrom 0 s' with
                | w :: ws => String c w :: ws
                | [] => [String c EmptyString]
                end
              else String c EmptyString :: fieldsFrom 0 s'
          end
      end
  end.

(** [strings.Fields]: the maximal runs of bytes between white space
    runes. *)
Definition Fields (s : string) : list string := fieldsFrom 0 s.

(** [strings.Split s sep] for a one-byte separator. *)
Fixpoint Split (s : string) (sep : ascii) : list string :=
  match s with
  | EmptyString => [EmptyString]
  | String c s' =>
      if decide (c = sep) then EmptyString :: Split s' sep
      else
        match Split s' sep with
        | h :: t => String c h :: t
        | [] => [String c EmptyString]
        end
  end.

(** [strings.Join elems sep] *)
Fixpoint JoinWith (sep : string) (elems : list string) : string :=
  match elems with
  | [] => EmptyString
  | [e] => e
  | e :: rest => e +:+ sep +:+ JoinWith sep rest
  end.

Fixpoint dropCR (s : string) : string :=
  match s with
  | EmptyString => EmptyString
  | String c EmptyString => if decide (c = CR) then EmptyString else s
  | String c s' => String c (dropCR s')
  end.

Fixpoint rawLines (s : string) : list string :=
  match s with
  | EmptyString => []
  | String c s' =>
      if decide (c = LF) then EmptyString :: rawLines s'
      else
        match rawLines s' with
        | h :: t => String c h :: t
        | [] => [String c EmptyString]
        end
  end.

(** The tokens of a [bufio.Scanner] with the default [ScanLines] split
    function: lines without their end-of-line marker; a last line without
    newline is a token when it is not empty.  (Lines are taken to be
    shorter than the scanner's 64 KiB token limit.) *)
Definition scanLines (s : string) : list string := map dropCR (rawLines s).

End Strings.

(** ** path/filepath on Unix *)

Module filepath.
Import Strings.

Definition IsAbs (p : string) : bool := HasPrefix p "/".

(** One element of a path, pushed on the stack of elements kept so far
    (most recent first), as [Clean] treats it. *)
Definition cleanStep (rooted : bool) (st : list string) (c : string) : list string :=
  if decide (c = "") then st
  else if decide (c = ".") then st
  else if decide (c = "..") then
    match st with
    | top :: st' => if decide (top = "..") then c :: st else st'
    | [] => if rooted then [] else [c]
    end
  else c :: st.

Definition Clean (p : string) : string :=
  if decide (p = "") then "."
  else
    let rooted := IsAbs p in
    let body := JoinWith "/" (rev (fold_left (cleanStep rooted) (Split p "/") [])) in
    if rooted then "/" +:+ body
    else if decide (body = "") then "." else body.

Fixpoint dropEmpty (elems : list string) : list string :=
  match elems with
  | e :: rest => if decide (e = "") then dropEmpty rest else elems
  | [] => []
  end.

(** [filepath.Join]: the elements from the first non-empty one on, joined
    with slashes and cleaned; the empty string when all are empty. *)
Definition Join (elems : list string) : string :=
  match dropEmpty elems with
  | [] => ""
  | rest => Clean (JoinWith "/" rest)
  end.

(** [filepath.Dir]: everything up to the last slash, cleaned. *)
Definition Dir (p : string) : string :=
  match removelast (Split p "/") with
  | [] => Clean ""
  | front => Clean (JoinWith "/" front +:+ "/")
  end.

End filepath.

(** ** Results and Go errors *)

Inductive result (E A : Type) : Type :=
| Ok (a : A)
| Err (e : E).
Arguments Ok {E A} a.
Arguments Err {E A} e.

Inductive errno := ENOENT | ENOTDIR | EISDIR | EACCES | EEXIST | EINVAL | ELOOP.

(** A Go [error]: a system call's [*PathError], [fmt.Errorf] with a plain
    message, or [fmt.Errorf] wrapping a cause with [%w]. *)
Inductive error :=
| PathError (op path : string) (e : errno)
| Errorf (msg : string)
| Wrapf (ctx : string) (cause : error).

(** ** The file tree *)

Module FS.
Import Strings.

#[warnings="-register-all"]
Inductive node :=
| Reg (data : string)
| Dir (entries : list (string * node))
| Symlink (target : string).

Fixpoint assoc (c : string) (es : list (string * node)) : option node :=
  match es with
  | [] => None
  | (k, v) :: rest => if decide (k = c) then Some v else assoc c rest
  end.

Fixpoint replace (c : string) (v : node) (es : list (string * node)) : list (string * node) :=
  match es with
  | [] => []
  | (k, x) :: rest => if decide (k = c) then (k, v) :: rest else (k, x) :: replace c v rest
  end.

Fixpoint insertSorted (c : string) (v : node) (es : list (string * node)) : list (string * node) :=
  match es with
  | [] => [(c, v)]
  | (k, x) :: rest => if String.ltb c k then (c, v) :: es else (k, x) :: insertSorted c v rest
  end.

(** Bind name [c] to [v] in a directory: in place when the name exists,
    else as a new entry at its place in the order of names. *)
Definition put (c : string) (v : node) (es : list (string * node)) : list (string * node) :=
  match assoc c es with
  | Some _ => replace c v es
  | None => insertSorted c v es
  end.

(** The node a list of components leads to. *)
Fixpoint lookup (t : node) (q : list string) : option node :=
  match q with
  | [] => Some t
  | c :: q' =>
      match t with
      | Dir es => match assoc c es with Some t' => lookup t' q' | None => None end
      | _ => None
      end
  end.

(** What a system call sees of a node. *)
Inductive view :=
| VNone
| VFile (data : string)
| VDir (names : list string)
| VLink (target : string).

Definition view_of (o : option node) : view :=
  match o with
  | None => VNone
  | Some (Reg d) => VFile d
  | Some (Dir es) => VDir (map fst es)
  | Some (Symlink s) => VLink s
  end.

Definition look (t : node) (q : list string) : view := view_of (lookup t q).

(** Replace or create the node at [q]: [f] gets the node there, if any, and
    gives the new one.  All directories above [q] must exist. *)
Fixpoint updateAt (f : option node -> result errno node) (t : node) (q : list string)
  : result errno node :=
  match q with
  | [] => f (Some t)
  | c :: q' =>
      match t with
      | Dir es =>
          match assoc c es, q' with
          | Some t', _ =>
              match updateAt f t' q' with
              | Ok t'' => Ok (Dir (put c t'' es))
              | Err e => Err e
              end
          | None, [] =>
              match f None with
              | Ok n => Ok (Dir (put c n es))
              | Err e => Err e
              end
          | None, _ :: _ => Err ENOENT
          end
      | _ => Err ENOTDIR
      end
  end.

(** [os.MkdirAll] on the tree: walk down, creating the directories that
    are missing; a node on the way that is no directory is an error. *)
Fixpoint mkdirAll (t : node) (q : list string) {struct q} : result errno node :=
  match t with
  | Dir es =>
      match q with
      | [] => Ok t
      | c :: q' =>
          match mkdirAll (default (Dir []) (assoc c es)) q' with
          | Ok t'' => Ok (Dir (put c t'' es))
          | Err e => Err e
          end
      end
  | _ => Err ENOTDIR
  end.

Fixpoint hasSlash (s : string) : bool :=
  match s with
  | EmptyString => false
  | String c s' => bool_decide (c = "/"%char) || hasSlash s'
  end.

(** A file name: what [ReadDir] can report and a path component can be. *)
Definition validName (n : string) : bool :=
  negb (bool_decide (n = "")) && negb (bool_decide (n = "."))
  && negb (bool_decide (n = "..")) && negb (hasSlash n).

End FS.

(** ** The world and the system calls *)

Module OS.
Import Strings FS.

(** The state a command runs in: the text of [/proc/mounts] (when it can
    be opened), the working directory, the file tree, and the calls of
    [os.WriteFile] made so far, most recent first, each with its path and
    data. *)
Record world := World {
  mounts : option string;
  cwd : list string;
  root : node;
  written : list (string * string)
}.

Definition setRoot (t : node) (w : world) : world :=
  World (mounts w) (cwd w) t (written w).

Definition logWrite (p data : string) (w : world) : world :=
  World (mounts w) (cwd w) (root w) ((p, data) :: written w).

(** Path resolution, element by element, from the root or from the
    working directory. *)
Definition resolveStep (st : list string) (c : string) : list string :=
  if decide (c = "") then st
  else if decide (c = ".") then st
  else if decide (c = "..") then tail st
  else c :: st.

Definition resolve (w : world) (p : string) : list string :=
  rev (fold_left resolveStep (Split p "/")
         (if filepath.IsAbs p then [] else rev (cwd w))).

Definition at_ (w : world) (p : string) : view := look (root w) (resolve w p).

Record FileInfo := { IsDir : bool; Size : nat }.

(** [os.Stat] of an attribute path; its error is not looked at by
    [dirExists], [fileExists] and [pathExists]. *)
Definition os_Stat (w : world) (p : string) : result error FileInfo :=
  match at_ w p with
  | VNone => Err (PathError "stat" p ENOENT)
  | VFile d => Ok {| IsDir := false; Size := String.length d |}
  | VDir _ => Ok {| IsDir := true; Size := 0 |}
  | VLink s => Ok {| IsDir := false; Size := String.length s |}
  end.

Definition os_ReadFile (w : world) (p : string) : result error string :=
  match at_ w p with
  | VNone => Err (PathError "open" p ENOENT)
  | VFile d => Ok d
  | VDir _ => Err (PathError "read" p EISDIR)
  | VLink _ => Err (PathError "open" p ELOOP)
  end.

Definition os_ReadDir (w : world) (p : string) : result error (list string) :=
  match at_ w p with
  | VNone => Err (PathError "open" p ENOENT)
  | VDir names => Ok (filter (fun n => validName n = true) names)
  | _ => Err (PathError "readdirent" p ENOTDIR)
  end.

(** Commands: a result and the world after. *)
Definition M (A : Type) : Type := world -> result error A * world.

Definition ret {A} (a : A) : M A := fun w => (Ok a, w).
Definition fail {A} (e : error) : M A := fun w => (Err e, w).
Definition bind {A B} (m : M A) (k : A -> M B) : M B :=
  fun w => match m w with
           | (Ok a, w') => k a w'
           | (Err e, w') => (Err e, w')
           end.
(** A read-only call. *)
Definition get {A} (f : world -> A) : M A := fun w => (Ok (f w), w).
(** A read-only call that can fail. *)
Definition try {A} (f : world -> result error A) : M A := fun w => (f w, w).
(** [if err := m; err != nil { return fmt.Errorf(ctx + ": %w", err) }] *)
Definition wrap {A} (ctx : string) (m : M A) : M A :=
  fun w => match m w with
           | (Ok a, w') => (Ok a, w')
           | (Err e, w') => (Err (Wrapf ctx e), w')
           end.
(** [defer cleanup()] placed before [body]: the cleanup runs when the body
    ends, whatever its result, which stands. *)
Definition defer {A} (cleanup : M unit) (body : M A) : M A :=
  fun w => match body w with
           | (r, w') => (r, snd (cleanup w'))
           end.

(** Apply a change of the tree at the place [p] names. *)
Definition change (op p : string) (f : node -> list string -> result errno node) : M unit :=
  fun w => match f (root w) (resolve w p) with
           | Ok t => (Ok tt, setRoot t w)
           | Err e => (Err (PathError op p e), w)
           end.

Definition writeNode (data : string) (cur : option node) : result errno node :=
  match cur with
  | None => Ok (Reg data)
  | Some (Reg _) => Ok (Reg data)
  | Some (Dir _) => Err EISDIR
  | Some (Symlink _) => Err ELOOP
  end.

(** [os.WriteFile(p, data, 0644)]: create or truncate, then write. *)
Definition os_WriteFile (p data : string) : M unit :=
  fun w => change "open" p (updateAt (writeNode data)) (logWrite p data w).

Definition linkNode (target : string) (cur : option node) : result errno node :=
  match cur with
  | None => Ok (Symlink target)
  | Some _ => Err EEXIST
  end.

(** [os.Symlink(target, p)] *)
Definition os_Symlink (target p : string) : M unit :=
  change "symlink" p (updateAt (linkNode target)).

Definition os_MkdirAll (p : string) : M unit := change "mkdir" p mkdirAll.

End OS.

(** ** Paths that lead through symbolic links *)

Module Namei.
Import Strings FS OS.

(** The kernel follows at most this many symbolic links in the resolution
    of one path. *)
Definition maxSymlinks : nat := 40.

(** The walk along the elements of a path from the directory at [cur]
    (a list of names from the root, none of them a link): an element is
    looked up in a directory; [..] leads to the directory above; the
    target of a symbolic link is walked in its place, from the root when
    it is absolute and else from the directory of the link.  A link at
    the very end is followed when [follow] is set, and is the result
    otherwise.  [links] is the number of links that may still be
    followed. *)
Fixpoint walk (links : nat) (t : node) (follow : bool)
  : list string -> list string -> result errno (list string) :=
  fix go (cur elems : list string) {struct elems} : result errno (list string) :=
    match elems with
    | [] => Ok cur
    | c :: rest =>
        match look t cur with
        | VDir _ =>
            if decide (c = "") then go cur rest
            else if decide (c = ".") then go cur rest
            else if decide (c = "..") then go (removelast cur) rest
            else
              match look t (cur ++ [c]) with
              | VNone => Err ENOENT
              | VLink target =>
                  if negb follow && bool_decide (rest = []) then Ok (cur ++ [c])
                  else if decide (target = "") then Err ENOENT
                  else
                    match links with
                    | 0 => Err ELOOP
                    | S links' =>
                        walk links' t follow
                          (if filepath.IsAbs target then [] else cur)
                          (Split target "/" ++ rest)
                    end
              | _ => go (cur ++ [c]) rest
              end
        | VNone => Err ENOENT
        | _ => Err ENOTDIR
        end
    end.

(** The place a path leads to. *)
Definition namei (w : world) (follow : bool) (p : string) : result errno (list string) :=
  if decide (p = "") then Err ENOENT
  else walk maxSymlinks (root w) follow (if filepath.IsAbs p then [] else cwd w)
         (Split p "/").

(** [os.Stat] *)
Definition os_Stat (w : world) (p : string) : result error FileInfo :=
  match namei w true p with
  | Err e => Err (PathError "stat" p e)
  | Ok q =>
      match look (root w) q with
      | VFile d => Ok {| IsDir := false; Size := String.length d |}
      | VDir _ => Ok {| IsDir := true; Size := 0 |}
      | VLink _ => Err (PathError "stat" p ELOOP)
      | VNone => Err (PathError "stat" p ENOENT)
      end
  end.

(** [os.Open] followed by [Close]: can the path be opened for reading. *)
Definition os_Open (w : world) (p : string) : result error unit :=
  match namei w true p with
  | Err e => Err (PathError "open" p e)
  | Ok q =>
      match look (root w) q with
      | VFile _ => Ok tt
      | VDir _ => Ok tt
      | VLink _ => Err (PathError "open" p ELOOP)
      | VNone => Err (PathError "open" p ENOENT)
      end
  end.

(** [os.ReadFile] *)
Definition os_ReadFile (w : world) (p : string) : result error string :=
  match namei w true p with
  | Err e => Err (PathError "open" p e)
  | Ok q =>
      match look (root w) q with
      | VFile d => Ok d
      | VDir _ => Err (PathError "read" p EISDIR)
      | VLink _ => Err (PathError "open" p ELOOP)
      | VNone => Err (PathError "open" p ENOENT)
      end
  end.

(** [os.Readlink]: the target of the link the path leads to. *)
Definition os_Readlink (w : world) (p : string) : result error string :=
  match namei w false p with
  | Err e => Err (PathError "readlink" p e)
  | Ok q =>
      match look (root w) q with
      | VLink target => Ok target
      | VNone => Err (PathError "readlink" p ENOENT)
      | _ => Err (PathError "readlink" p EINVAL)
      end
  end.

End Namei.

Declare Scope go_scope.
Delimit Scope go_scope with go.
Notation "x <- m ;; k" := (OS.bind m (fun x => k))
  (at level 100, m at next level, right associativity) : go_scope.
Notation "m ;;; k" := (OS.bind m (fun _ => k))
  (at level 100, right associativity) : go_scope.

Import Strings FS OS.
Local Open Scope go_scope.

(** ** utils.go *)

(** The loop of [findMountPoint] over the lines of the mount table. *)
Fixpoint scanMounts (fsType : string) (lines : list string) : option string :=
  match lines with
  | [] => None
  | line :: rest =>
      match Fields line with
      | f0 :: f1 :: _ :: _ =>
          if decide (f0 = fsType) then Some f1 else scanMounts fsType rest
      | _ => scanMounts fsType rest
      end
  end.

Definition dirExists (w : world) (path : string) : bool :=
  match os_Stat w path with
  | Ok info => IsDir info
  | Err _ => false
  end.

Definition fileExists (w : world) (path : string) : bool :=
  match os_Stat w path with
  | Ok info => negb (IsDir info)
  | Err _ => false
  end.

Definition pathExists (w : world) (path : string) : bool :=
  match os_Stat w path with
  | Ok _ => true
  | Err _ => false
  end.

Definition findMountPoint (w : world) (fsType : string) : string :=
  match mounts w with
  | None => ""
  | Some text =>
      match scanMounts fsType (scanLines text) with
      | Some mountPoint => mountPoint
      | None =>
          if decide (fsType = "configfs") then
            if dirExists w "/sys/kernel/config" then "/sys/kernel/config"
            else if dirExists w "/config" then "/config"
            else ""
          else ""
      end
  end.

Definition readFile (w : world) (path : string) : result error string :=
  match os_ReadFile w path with
  | Ok data => Ok (TrimSpace data)
  | Err e => Err e
  end.

Definition writeFile (path content : string) : M unit :=
  os_WriteFile path (content +:+ nl).

Definition dangerousPaths : list string :=
  [ "/system"; "/sys"; "/proc"; "/dev";
    "/etc"; "/bin"; "/sbin"; "/boot";
    "/root"; "/data/system"; "/data/data" ].

(** The first deny-list entry that is a prefix of [path]. *)
Definition findDangerous (path : string) : option string :=
  List.find (fun dangerous => HasPrefix path dangerous) dangerousPaths.

(** [validateSafePath] calls itself on a link's target with no bound of
    its own; the model counts the calls: [None] when [fuel] calls did not
    reach a return. *)
Fixpoint validateSafePath (fuel : nat) (w : world) (path : string)
  : option (result error unit) :=
  match fuel with
  | 0 => None
  | S fuel' =>
      match findDangerous path with
      | Some dangerous =>
          Some (Err (Errorf ("cannot mount files from system directory: " +:+ dangerous)))
      | None =>
          match Namei.os_Readlink w path with
          | Ok linkTarget =>
              if filepath.IsAbs linkTarget then validateSafePath fuel' w linkTarget
              else
                let dir := filepath.Dir path in
                let resolved := filepath.Join [dir; linkTarget] in
                validateSafePath fuel' w resolved
          | Err _ => Some (Ok tt)
          end
      end
  end.

(** [os.Getwd] *)
Definition Getwd (w : world) : string := "/" +:+ JoinWith "/" (cwd w).

(** [filepath.Abs] *)
Definition Abs (w : world) (path : string) : string :=
  if filepath.IsAbs path then filepath.Clean path
  else filepath.Join [Getwd w; path].

Definition validateImage (fuel : nat) (w : world) (path : string)
  : option (result error unit) :=
  let absPath := Abs w path in
  match validateSafePath fuel w absPath with
  | None => None
  | Some (Err e) => Some (Err e)
  | Some (Ok _) =>
      Some
        match Namei.os_Stat w absPath with
        | Err (PathError _ _ ENOENT) => Err (Errorf ("file does not exist: " +:+ absPath))
        | Err e => Err (Wrapf "cannot access file" e)
        | Ok info =>
            if IsDir info then Err (Errorf ("path is a directory: " +:+ absPath))
            else if Size info =? 0 then Err (Errorf ("file is empty: " +:+ absPath))
            else
              match Namei.os_Open w absPath with
              | Err e => Err (Wrapf "file not readable" e)
              | Ok _ => Ok tt
              end
        end
  end.

Definition verifyMount (w : world) (lunFile expectedPath : string) : result error unit :=
  match readFile w lunFile with
  | Err e => Err (Wrapf "failed to read LUN file" e)
  | Ok mountedPath =>
      if decide (mountedPath = expectedPath) then Ok tt
      else Err (Errorf ("expected " +:+ expectedPath +:+ ", got " +:+ mountedPath))
  end.

Definition verifyUnmount (w : world) (lunFile : string) : result error unit :=
  match readFile w lunFile with
  | Err e => Err e
  | Ok content =>
      if decide (content = "") then Ok tt
      else Err (Errorf "LUN file not empty")
  end.

(** ** backend.go *)

Record MountOptions := { ReadWrite : bool; CDROM : bool }.

(** ([CDROM_] is the status field [CDROM].) *)
Record MountStatus := {
  Mounted : bool;
  File : string;
  ReadOnly : bool;
  CDROM_ : bool
}.

Definition notMounted : MountStatus :=
  {| Mounted := false; File := ""; ReadOnly := false; CDROM_ := false |}.

(** [entry.Name()[0] == '.'] (a directory entry's name is never empty). *)
Definition isDotfile (name : string) : bool :=
  match name with
  | String c _ => bool_decide (c = "."%char)
  | EmptyString => false
  end.

(** [s, _ := readFile(path)]: the empty string when the read fails. *)
Definition orEmpty (r : result error string) : string :=
  match r with
  | Ok s => s
  | Err _ => ""
  end.

(** [if !cond { m }] *)
Definition unless (cond : world -> bool) (m : M unit) : M unit :=
  fun w => if cond w then (Ok tt, w) else m w.

Definition flag (b : bool) : string := if b then "1" else "0".

(** ** configfs.go *)

Module ConfigFS.

Definition Name : string := "configfs".

Definition Supported (w : world) : bool :=
  let mountPoint := findMountPoint w "configfs" in
  if decide (mountPoint = "") then false
  else
    let gadgetPath := filepath.Join [mountPoint; "usb_gadget"] in
    dirExists w gadgetPath.

(** The loop of [findGadgetRoot]: the first entry, dotfiles apart, whose
    [UDC] attribute reads as a non-empty string. *)
Fixpoint activeGadget (w : world) (gadgetDir : string) (entries : list string)
  : option string :=
  match entries with
  | [] => None
  | name :: rest =>
      if isDotfile name then activeGadget w gadgetDir rest
      else
        let gadgetPath := filepath.Join [gadgetDir; name] in
        let udcFile := filepath.Join [gadgetPath; "UDC"] in
        if decide (orEmpty (readFile w udcFile) = "")
        then activeGadget w gadgetDir rest
        else Some gadgetPath
  end.

Definition findGadgetRoot (w : world) : result error string :=
  let mountPoint := findMountPoint w "configfs" in
  if decide (mountPoint = "") then Err (Errorf "configfs not mounted")
  else
    let gadgetDir := filepath.Join [mountPoint; "usb_gadget"] in
    if negb (dirExists w gadgetDir) then Err (Errorf "usb_gadget directory not found")
    else
      match os_ReadDir w gadgetDir with
      | Err e => Err (Wrapf "read gadget dir" e)
      | Ok entries =>
          match activeGadget w gadgetDir entries with
          | Some gadgetPath => Ok gadgetPath
          | None => Err (Errorf "no active gadget found")
          end
      end.

Definition findConfigRoot (w : world) (gadgetRoot : string) : result error string :=
  let configDir := filepath.Join [gadgetRoot; "configs"] in
  match os_ReadDir w configDir with
  | Err e => Err (Wrapf "read configs" e)
  | Ok entries =>
      match List.find (fun name => negb (isDotfile name)) entries with
      | Some name => Ok (filepath.Join [configDir; name])
      | None => Err (Errorf "no config found")
      end
  end.

Definition getUDC (w : world) (gadgetRoot : string) : result error string :=
  let udcFile := filepath.Join [gadgetRoot; "UDC"] in
  readFile w udcFile.

Definition setUDC (gadgetRoot udc : string) : M unit :=
  let udcFile := filepath.Join [gadgetRoot; "UDC"] in
  writeFile udcFile udc.

(** The deferred function of [Mount] and [Unmount]. *)
Definition reenableUDC (gadgetRoot udc : string) : M unit :=
  if decide (udc = "") then ret tt else setUDC gadgetRoot udc.

(** The steps of [Mount] that follow the [defer] statement. *)
Definition mountSteps (gadgetRoot configRoot imagePath : string) (opts : MountOptions)
  : M unit :=
  let functionRoot := filepath.Join [gadgetRoot; "functions"] in
  let massStorageRoot := filepath.Join [functionRoot; "mass_storage.0"] in
  let lunRoot := filepath.Join [massStorageRoot; "lun.0"] in
  unless (fun w => dirExists w massStorageRoot)
    (wrap "create mass_storage function" (os_MkdirAll massStorageRoot)) ;;;
  let configLink := filepath.Join [configRoot; "mass_storage.0"] in
  unless (fun w => pathExists w configLink)
    (wrap "link mass_storage to config" (os_Symlink massStorageRoot configLink)) ;;;
  let lunFile := filepath.Join [lunRoot; "file"] in
  wrap "clear lun file" (writeFile lunFile "") ;;;
  let cdromValue := flag (CDROM opts) in
  wrap "set cdrom flag" (writeFile (filepath.Join [lunRoot; "cdrom"]) cdromValue) ;;;
  let roValue := flag (negb (ReadWrite opts)) in
  wrap "set ro flag" (writeFile (filepath.Join [lunRoot; "ro"]) roValue) ;;;
  wrap "mount image" (writeFile lunFile imagePath) ;;;
  wrap "verify mount" (try (fun w => verifyMount w lunFile imagePath)).

Definition Mount (imagePath : string) (opts : MountOptions) : M unit :=
  gadgetRoot <- wrap "find gadget" (try findGadgetRoot) ;;
  configRoot <- wrap "find config" (try (fun w => findConfigRoot w gadgetRoot)) ;;
  udc <- wrap "get UDC" (try (fun w => getUDC w gadgetRoot)) ;;
  wrap "disable UDC" (setUDC gadgetRoot "") ;;;
  defer (reenableUDC gadgetRoot udc)
    (mountSteps gadgetRoot configRoot imagePath opts).

(** The steps of [Unmount] that follow the [defer] statement. *)
Definition unmountSteps (gadgetRoot : string) : M unit :=
  let massStorageRoot := filepath.Join [gadgetRoot; "functions"; "mass_storage.0"] in
  let lunFile := filepath.Join [massStorageRoot; "lun.0"; "file"] in
  wrap "clear lun file" (writeFile lunFile "") ;;;
  wrap "verify unmount" (try (fun w => verifyUnmount w lunFile)).

Definition Unmount : M unit :=
  gadgetRoot <- wrap "find gadget" (try findGadgetRoot) ;;
  udc <- wrap "get UDC" (try (fun w => getUDC w gadgetRoot)) ;;
  wrap "disable UDC" (setUDC gadgetRoot "") ;;;
  defer (reenableUDC gadgetRoot udc) (unmountSteps gadgetRoot).

Definition Status (w : world) : MountStatus :=
  match findGadgetRoot w with
  | Err _ => notMounted
  | Ok gadgetRoot =>
      let massStorageRoot := filepath.Join [gadgetRoot; "functions"; "mass_storage.0"] in
      if negb (dirExists w massStorageRoot) then notMounted
      else
        let lunRoot := filepath.Join [massStorageRoot; "lun.0"] in
        let lunFile := filepath.Join [lunRoot; "file"] in
        match readFile w lunFile with
        | Err _ => notMounted
        | Ok file =>
            if decide (file = "") then notMounted
            else
              let cdrom := orEmpty (readFile w (filepath.Join [lunRoot; "cdrom"])) in
              let ro := orEmpty (readFile w (filepath.Join [lunRoot; "ro"])) in
              {| Mounted := true; File := file;
                 ReadOnly := bool_decide (ro = "1");
                 CDROM_ := bool_decide (cdrom = "1") |}
        end
  end.

End ConfigFS.

(** ** udc.go *)

Module UDC.

Definition Name : string := "udc".

Definition udcDir : string := "/sys/class/udc".

(** The loop of [Supported] and [findLunFile]: the LUN file of the first
    controller that has one. *)
Fixpoint firstLunFile (w : world) (entries : list string) : option string :=
  match entries with
  | [] => None
  | name :: rest =>
      let lunFile := filepath.Join [udcDir; name; "device/gadget/lun0/file"] in
      if fileExists w lunFile then Some lunFile else firstLunFile w rest
  end.

Definition Supported (w : world) : bool :=
  if negb (dirExists w udcDir) then false
  else
    match os_ReadDir w udcDir with
    | Err _ => false
    | Ok entries =>
        match firstLunFile w entries with
        | Some _ => true
        | None => false
        end
    end.

Definition findLunFile (w : world) : result error string :=
  match os_ReadDir w udcDir with
  | Err e => Err (Wrapf "read udc dir" e)
  | Ok entries =>
      match firstLunFile w entries with
      | Some lunFile => Ok lunFile
      | None => Err (Errorf "no lun file found")
      end
  end.

Definition Mount (imagePath : string) (opts : MountOptions) : M unit :=
  lunFile <- wrap "find lun file" (try findLunFile) ;;
  wrap "clear lun file" (writeFile lunFile "") ;;;
  wrap "mount image" (writeFile lunFile imagePath) ;;;
  mountedPath <- wrap "verify mount" (try (fun w => readFile w lunFile)) ;;
  if decide (mountedPath = imagePath) then ret tt
  else fail (Errorf ("verify mount: expected " +:+ imagePath +:+ ", got " +:+ mountedPath)).

Definition Unmount : M unit :=
  lunFile <- wrap "find lun file" (try findLunFile) ;;
  wrap "clear lun file" (writeFile lunFile "") ;;;
  content <- wrap "verify unmount" (try (fun w => readFile w lunFile)) ;;
  if decide (content = "") then ret tt
  else fail (Errorf "verify unmount: LUN file not empty").

Definition Status (w : world) : MountStatus :=
  match findLunFile w with
  | Err _ => notMounted
  | Ok lunFile =>
      match readFile w lunFile with
      | Err _ => notMounted
      | Ok file =>
          if decide (file = "") then notMounted
          else {| Mounted := true; File := file; ReadOnly := false; CDROM_ := false |}
      end
  end.

End UDC.

(** ** sysfs.go *)

Module Sysfs.

Definition sysfsEnable : string := "/sys/devices/virtual/android_usb/android0/enable".
Definition sysfsFile : string :=
  "/sys/devices/virtual/android_usb/android0/f_mass_storage/lun/file".
Definition sysfsFeatures : string := "/sys/devices/virtual/android_usb/android0/functions".

Definition Name : string := "sysfs".

Definition Supported (w : world) : bool := fileExists w sysfsEnable.

Definition setEnabled (enabled : bool) : M unit :=
  writeFile sysfsEnable (flag enabled).

Definition Mount (isoPath : string) (opts : MountOptions) : M unit :=
  wrap "disable USB" (setEnabled false) ;;;
  wrap "set image file" (writeFile sysfsFile isoPath) ;;;
  wrap "set mass_storage function" (writeFile sysfsFeatures "mass_storage") ;;;
  wrap "enable USB" (setEnabled true).

Definition Unmount : M unit :=
  wrap "disable USB" (setEnabled false) ;;;
  wrap "clear image file" (writeFile sysfsFile "") ;;;
  wrap "reset to MTP" (writeFile sysfsFeatures "mtp") ;;;
  wrap "enable USB" (setEnabled true).

Definition Status (w : world) : MountStatus :=
  match readFile w sysfsFile with
  | Err _ => notMounted
  | Ok file =>
      if decide (file = "") then notMounted
      else {| Mounted := true; File := file; ReadOnly := true; CDROM_ := false |}
  end.

End Sysfs.

(** ** config.go *)

Record Config := {
  cfgFile : string;      (* File *)
  cfgMode : string;      (* Mode: ro, rw, cdrom *)
  cfgBackend : string    (* Backend *)
}.

Section LoadConfig.
(** [json.Unmarshal] into a [Config], left abstract. *)
Variable unmarshal : string -> result error Config.

Definition loadConfig (w : world) (path : string) : result error Config :=
  match Namei.os_ReadFile w path with
  | Err e => Err (Wrapf "read config file" e)
  | Ok data =>
      match unmarshal data with
      | Err e => Err (Wrapf "parse config file" e)
      | Ok cfg =>
          if decide (cfgFile cfg = "") then
            Err (Errorf "config missing required field: file")
          else
            let file :=
              if negb (filepath.IsAbs (cfgFile cfg)) then Abs w (cfgFile cfg)
              else cfgFile cfg in
            if negb (bool_decide (cfgMode cfg = "")) && negb (bool_decide (cfgMode cfg = "ro"))
               && negb (bool_decide (cfgMode cfg = "rw"))
               && negb (bool_decide (cfgMode cfg = "cdrom")) then
              Err (Errorf ("invalid mode: " +:+ cfgMode cfg +:+ " (must be ro, rw, or cdrom)"))
            else if negb (bool_decide (cfgBackend cfg = ""))
                    && negb (bool_decide (cfgBackend cfg = "configfs"))
                    && negb (bool_decide (cfgBackend cfg = "sysfs"))
                    && negb (bool_decide (cfgBackend cfg = "legacy")) then
              Err (Errorf ("invalid backend: " +:+ cfgBackend cfg
                           +:+ " (must be configfs, sysfs, or legacy)"))
            else Ok {| cfgFile := file; cfgMode := cfgMode cfg; cfgBackend := cfgBackend cfg |}
      end
  end.
End LoadConfig.

(** ** main.go *)

(** The [Backend] interface. *)
Record Backend := {
  Name : string;
  Supported : world -> bool;
  Mount : string -> MountOptions -> M unit;
  Unmount : M unit;
  Status : world -> MountStatus
}.

Definition ConfigFSBackend : Backend :=
  {| Name := ConfigFS.Name; Supported := ConfigFS.Supported; Mount := ConfigFS.Mount;
     Unmount := ConfigFS.Unmount; Status := ConfigFS.Status |}.

Definition UDCBackend : Backend :=
  {| Name := UDC.Name; Supported := UDC.Supported; Mount := UDC.Mount;
     Unmount := UDC.Unmount; Status := UDC.Status |}.

Definition SysfsBackend : Backend :=
  {| Name := Sysfs.Name; Supported := Sysfs.Supported; Mount := Sysfs.Mount;
     Unmount := Sysfs.Unmount; Status := Sysfs.Status |}.

Definition backends : list Backend := [ConfigFSBackend; UDCBackend; SysfsBackend].

Definition errNotSupported (force : string) : error :=
  Errorf ("backend '" +:+ force +:+ "' is not supported on this device" +:+ nl
          +:+ "Hint: Check if /sys/kernel/config/usb_gadget (configfs), /sys/class/android_usb (sysfs), or /sys/class/udc/*/device/gadget (udc) exists").

Definition errUnknownBackend (force : string) : error :=
  Errorf ("unknown backend '" +:+ force +:+ "'" +:+ nl
          +:+ "Hint: Valid backends are 'configfs', 'sysfs', or 'udc'").

Definition errNoBackend : error :=
  Errorf ("no supported USB gadget backend found" +:+ nl
          +:+ "Hint: Your kernel may not support USB gadget mode. Check if configfs, android_usb, or UDC gadget is available").

(** The first loop of [selectBackend]: the backend of the forced name. *)
Fixpoint forcedBackend (w : world) (force : string) (bs : list Backend)
  : result error Backend :=
  match bs with
  | [] => Err (errUnknownBackend force)
  | b :: rest =>
      if decide (Name b = force) then
        if Supported b w then Ok b else Err (errNotSupported force)
      else forcedBackend w force rest
  end.

(** The second loop: the first backend that is supported. *)
Fixpoint firstSupported (w : world) (bs : list Backend) : result error Backend :=
  match bs with
  | [] => Err errNoBackend
  | b :: rest => if Supported b w then Ok b else firstSupported w rest
  end.

Definition selectBackend (w : world) (force : string) : result error Backend :=
  if decide (force = "") then firstSupported w backends
  else forcedBackend w force backends.

Definition getMode (rw cdrom : bool) : string :=
  if cdrom then "cdrom" else if rw then "read-write" else "read-only".

(** ** The LUN file, as [Status] reads it

    The content of the LUN file of a backend, trimmed as [readFile] gives
    it: the file [Status] reads to tell whether an image is mounted. *)





(** The flags of the [mount] command. *)
Record MountFlags := {
  mountRO : bool;
  mountRW : bool;
  mountCDROM : bool;
  mountForce : string;
  mountVerbose : bool;
  mountDryRun : bool;
  mountConfig : string
}.

(** What the first part of [mountCmd.RunE] settles: the image path,
    [readWrite], [useCDROM] and [forceBackend]. *)
Record MountRequest := {
  imagePath : string;
  readWrite : bool;
  useCDROM : bool;
  forceBackend : string
}.

(** [mountCmd.PreRunE] *)
Definition mountPreRunE (euid : nat) : result error unit :=
  if negb (euid =? 0) then Err (Errorf "must run as root") else Ok tt.

Section MountCmd.
Variable unmarshal : string -> result error Config.

Definition mountRequest (fl : MountFlags) (args : list string) (w : world)
  : result error MountRequest :=
  if negb (bool_decide (mountConfig fl = "")) then
    match loadConfig unmarshal w (mountConfig fl) with
    | Err e => Err (Wrapf "failed to load config" e)
    | Ok cfg =>
        Ok {| imagePath := cfgFile cfg;
              readWrite :=
                if decide (cfgMode cfg = "ro") then false
                else if decide (cfgMode cfg = "cdrom") then false
                else true;
              useCDROM :=
                if decide (cfgMode cfg = "ro") then false
                else if decide (cfgMode cfg = "cdrom") then true
                else false;
              forceBackend := cfgBackend cfg |}
    end
  else
    match args with
    | [] => Err (Errorf "missing file argument")
    | arg0 :: _ =>
        Ok {| imagePath := arg0;
              readWrite :=
                if mountRO fl then false
                else if mountRW fl then true
                else true;
              useCDROM := mountCDROM fl;
              forceBackend := mountForce fl |}
    end.

(** [mountCmd.RunE]; [None] when the image validation does not return
    within [fuel] calls.  Output on the terminal is left out. *)
Definition mountRunE (fuel : nat) (fl : MountFlags) (args : list string) (w : world)
  : option (result error unit * world) :=
  match mountRequest fl args w with
  | Err e => Some (Err e, w)
  | Ok req =>
      if useCDROM req && readWrite req then
        Some (Err (Errorf "cannot use -cdrom with -rw (CDROM devices are always read-only)"), w)
      else if mountRO fl && mountRW fl then
        Some (Err (Errorf "cannot use -ro with -rw (conflicting flags)"), w)
      else
        match validateImage fuel w (imagePath req) with
        | None => None
        | Some (Err e) => Some (Err (Wrapf "invalid image file" e), w)
        | Some (Ok _) =>
            match selectBackend w (forceBackend req) with
            | Err e => Some (Err e, w)
            | Ok backend =>
                let readWrite' :=
                  if bool_decide (Name backend = "sysfs") && readWrite req then false
                  else readWrite req in
                if mountDryRun fl then Some (Ok tt, w)
                else
                  let opts := {| ReadWrite := readWrite'; CDROM := useCDROM req |} in
                  Some (wrap "mount failed" (Mount backend (imagePath req) opts) w)
            end
        end
  end.
End MountCmd.

(** The flags of the [unmount] command. *)
Record UnmountFlags := {
  unmountForce : string;
  unmountVerbose : bool;
  unmountDryRun : bool
}.

(** The lines [fmt.Printf] writes for a status, after the first one. *)
Definition currentStatus (status : MountStatus) : string :=
  if Mounted status then
    "  Currently mounted: " +:+ File status +:+ nl
    +:+ "  Current mode: " +:+ getMode (negb (ReadOnly status)) (CDROM_ status) +:+ nl
  else "  Status: No image currently mounted" +:+ nl.

(** [unmountCmd.RunE]: the result is the text written to standard output.
    (The hint that ends the message of the last error is left out.) *)
Definition unmountRunE (fl : UnmountFlags) : M string :=
  fun w =>
    match selectBackend w (unmountForce fl) with
    | Err e => (Err e, w)
    | Ok backend =>
        if unmountDryRun fl then
          (Ok ("Dry run: Would unmount using backend: " +:+ Name backend +:+ nl
               +:+ currentStatus (Status backend w)), w)
        else
          match Unmount backend w with
          | (Ok _, w') => (Ok "", w')
          | (Err e, w') => (Err (Wrapf "unmount failed" e), w')
          end
    end.

(** The loop of [statusCmd.RunE] over its backends; the result is the text
    written to standard output.  ([Status] returns no error.) *)
Fixpoint statusReport (w : world) (bs : list Backend) : string :=
  match bs with
  | [] => "No active USB gadget found" +:+ nl
  | backend :: rest =>
      if negb (Supported backend w) then statusReport w rest
      else
        let status := Status backend w in
        "Backend: " +:+ Name backend +:+ nl
        +:+ (if Mounted status then
               "Status: Mounted" +:+ nl
               +:+ "File: " +:+ File status +:+ nl
               +:+ "Mode: " +:+ getMode (negb (ReadOnly status)) (CDROM_ status) +:+ nl
             else "Status: Not mounted" +:+ nl)
  end.

(** [statusCmd.RunE] *)
Definition statusRunE (w : world) : string :=
  statusReport w [ConfigFSBackend; SysfsBackend].

(** ** configfs.go, the variant that creates a gadget

    This variant of the file differs from the one above in [Supported],
    [findGadgetRoot] and [findConfigRoot]; its [Mount], [Unmount] and
    [Status] run the same steps over them. *)

Module ConfigFSCreate.

Definition Supported (w : world) : bool :=
  let mountPoint := findMountPoint w "configfs" in
  if decide (mountPoint = "") then false
  else dirExists w mountPoint.

(** The loop that enables the new gadget: the first controller name,
    dotfiles apart, whose write to the gadget's [UDC] succeeds. *)
Fixpoint enableGadget (gadgetPath : string) (udcList : list string) : M unit :=
  match udcList with
  | [] => ret tt
  | udc :: rest =>
      if isDotfile udc then enableGadget gadgetPath rest
      else
        fun w =>
          match writeFile (filepath.Join [gadgetPath; "UDC"]) udc w with
          | (Ok _, w') => (Ok tt, w')
          | (Err _, w') => enableGadget gadgetPath rest w'
          end
  end.

(** The body of [if !dirExists(gadgetPath)] in [findGadgetRoot]. *)
Definition createGadget (mountPoint gadgetPath : string) : M unit :=
  wrap "create gadget" (os_MkdirAll gadgetPath) ;;;
  wrap "set idVendor" (writeFile (filepath.Join [gadgetPath; "idVendor"]) "0x18d1") ;;;
  wrap "set idProduct" (writeFile (filepath.Join [gadgetPath; "idProduct"]) "0x4e26") ;;;
  let stringsDir := filepath.Join [gadgetPath; "strings/0x409"] in
  wrap "create strings dir" (os_MkdirAll stringsDir) ;;;
  wrap "set serialnumber" (writeFile (filepath.Join [stringsDir; "serialnumber"]) "123456") ;;;
  wrap "set manufacturer" (writeFile (filepath.Join [stringsDir; "manufacturer"]) "Android") ;;;
  wrap "set product" (writeFile (filepath.Join [stringsDir; "product"]) "USB Drive") ;;;
  let configDir := filepath.Join [gadgetPath; "configs/c.1"] in
  wrap "create config dir" (os_MkdirAll configDir) ;;;
  let configStringsDir := filepath.Join [configDir; "strings/0x409"] in
  wrap "create config strings dir" (os_MkdirAll configStringsDir) ;;;
  wrap "set configuration"
    (writeFile (filepath.Join [configStringsDir; "configuration"]) "Config 1") ;;;
  udcList <- get (fun w => os_ReadDir w (filepath.Join [mountPoint; "../devices"])) ;;
  match udcList with
  | Ok (udc :: rest) => enableGadget gadgetPath (udc :: rest)
  | _ => ret tt
  end.

Definition findGadgetRoot : M string :=
  mountPoint <- get (fun w => findMountPoint w "configfs") ;;
  if decide (mountPoint = "") then fail (Errorf "configfs not mounted")
  else
    let gadgetDir := filepath.Join [mountPoint; "usb_gadget"] in
    unless (fun w => dirExists w gadgetDir)
      (wrap "create usb_gadget dir" (os_MkdirAll gadgetDir)) ;;;
    entries <- wrap "read gadget dir" (try (fun w => os_ReadDir w gadgetDir)) ;;
    active <- get (fun w => ConfigFS.activeGadget w gadgetDir entries) ;;
    match active with
    | Some gadgetPath => ret gadgetPath
    | None =>
        let gadgetPath := filepath.Join [gadgetDir; "g1"] in
        unless (fun w => dirExists w gadgetPath) (createGadget mountPoint gadgetPath) ;;;
        ret gadgetPath
    end.

Definition findConfigRoot (gadgetRoot : string) : M string :=
  let configDir := filepath.Join [gadgetRoot; "configs"] in
  unless (fun w => dirExists w configDir)
    (wrap "create configs dir" (os_MkdirAll configDir)) ;;;
  entries <- wrap "read configs" (try (fun w => os_ReadDir w configDir)) ;;
  match List.find (fun name => negb (isDotfile name)) entries with
  | Some name => ret (filepath.Join [configDir; name])
  | None => ret (filepath.Join [configDir; "c.1"])
  end.

(** The steps after the [defer] statement are those of the other variant,
    with the two verifications written in line; the messages are the same. *)
Definition Mount (imagePath : string) (opts : MountOptions) : M unit :=
  gadgetRoot <- wrap "find gadget" findGadgetRoot ;;
  configRoot <- wrap "find config" (findConfigRoot gadgetRoot) ;;
  udc <- wrap "get UDC" (try (fun w => ConfigFS.getUDC w gadgetRoot)) ;;
  wrap "disable UDC" (ConfigFS.setUDC gadgetRoot "") ;;;
  defer (ConfigFS.reenableUDC gadgetRoot udc)
    (ConfigFS.mountSteps gadgetRoot configRoot imagePath opts).

End ConfigFSCreate.

(** ** The gadget [createGadget] makes

    The tree of a gadget directory once [ConfigFSCreate.createGadget] has
    run on a fresh one, bound to controller [udc] if there is one. *)



(** ** Example worlds *)

Module Examples.

Definition attr (data : string) : node := Reg (data +:+ nl).

(** A gadget [g1] bound to controller [ci_hdrc.0], its mass-storage
    function linked into config [b.1]. *)
Definition gadget (udc lun : string) : node :=
  Dir [ ("UDC", attr udc);
        ("configs", Dir [ ("b.1", Dir [ ("mass_storage.0",
              Symlink "/config/usb_gadget/g1/functions/mass_storage.0") ]) ]);
        ("functions", Dir [ ("mass_storage.0", Dir [ ("lun.0",
              Dir [ ("cdrom", attr "0"); ("file", attr lun); ("ro", attr "0") ]) ]) ]) ].

Definition sysTree (lun : string) : node :=
  Dir [ ("class", Dir [ ("udc", Dir [ ("ci_hdrc.0", Dir [ ("device", Dir [ ("gadget",
              Dir [ ("lun0", Dir [ ("file", attr lun) ]) ]) ]) ]) ]) ]);
        ("devices", Dir [ ("virtual", Dir [ ("android_usb", Dir [ ("android0",
              Dir [ ("enable", attr "1");
                    ("f_mass_storage", Dir [ ("lun", Dir [ ("file", attr lun) ]) ]);
                    ("functions", attr "mtp") ]) ]) ]) ]);
        ("kernel", Dir [ ("config", Dir []) ]) ].

Definition sdcard : node :=
  Dir [ ("dir", Dir []);
        ("empty.img", Reg "");
        ("loop", Symlink "/sdcard/loop");
        ("x.iso", Reg "CD001") ].

Definition tree (udc lun : string) : node :=
  Dir [ ("config", Dir [ ("usb_gadget", Dir [ ("g1", gadget udc lun) ]) ]);
        ("sdcard", sdcard);
        ("sys", sysTree lun) ].

(** A device whose configfs is listed in the mount table under the
    device name [configfs]. *)
Definition phone (udc lun : string) : world :=
  {| mounts := Some ("rootfs / rootfs ro 0 0" +:+ nl
                     +:+ "configfs /config configfs rw,relatime 0 0" +:+ nl);
     cwd := ["sdcard"];
     root := tree udc lun;
     written := [] |}.

(** The same device with configfs mounted under the device name [none],
    as Android's init does. *)
Definition android (udc lun : string) : world :=
  {| mounts := Some ("rootfs / rootfs ro 0 0" +:+ nl
                     +:+ "none /config configfs rw,relatime 0 0" +:+ nl);
     cwd := ["sdcard"];
     root := tree udc lun;
     written := [] |}.

(** A gadget tree whose function directory has no LUN directory and
    cannot get one: [lun.0] is a plain file. *)
Definition brokenGadget : node :=
  Dir [ ("UDC", attr "ci_hdrc.0");
        ("configs", Dir [ ("b.1", Dir []) ]);
        ("functions", Dir [ ("mass_storage.0", Dir [ ("lun.0", Reg "") ]) ]) ].


Definition broken : world :=
  {| mounts := Some ("configfs /config configfs rw,relatime 0 0" +:+ nl);
     cwd := [];
     root := Dir [ ("config", Dir [ ("usb_gadget", Dir [ ("g1", brokenGadget) ]) ]) ];
     written := [] |}.

(** A storage whose images are reached through symbolic links: a link to
    an image, a link to an empty file, and a link to a directory of the
    deny-list. *)
Definition linked : world :=
  {| mounts := None;
     cwd := ["sdcard"];
     root := Dir [ ("root", Dir [ ("secret.img", Reg "secret") ]);
                   ("sdcard",
                    Dir [ ("d", Symlink "/root");
                          ("empty.img", Reg "");
                          ("images", Dir [ ("x.iso", Reg "CD001") ]);
                          ("link.iso", Symlink "images/x.iso");
                          ("zero.img", Symlink "empty.img") ]) ];
     written := [] |}.

Definition rwOpts : MountOptions := {| ReadWrite := true; CDROM := false |}.

(** The world after mounting [/sdcard/x.iso] through configfs, and after
    unmounting. *)
Definition mounted (w : world) : world := snd (ConfigFS.Mount "/sdcard/x.iso" rwOpts w).

(** [json.Unmarshal] is not exercised by the examples. *)
Definition noJSON (data : string) : result error Config :=
  Err (Errorf "invalid character")%string.

Definition cdromFlags : MountFlags :=
  {| mountRO := false; mountRW := false; mountCDROM := true; mountForce := "";
     mountVerbose := false; mountDryRun := false; mountConfig := "" |}.

End Examples.


(** ** The mount table as the specification words it

    [findMountPoint] as the specification states it: the mount point of the
    first entry whose filesystem type, the third field of a line of
    [/proc/mounts], is [fsType]. *)

Module Spec.

Fixpoint scanMountsByType (fsType : string) (lines : list string) : option string :=
  match lines with
  | [] => None
  | line :: rest =>
      match Fields line with
      | _ :: f1 :: f2 :: _ =>
          if decide (f2 = fsType) then Some f1 else scanMountsByType fsType rest
      | _ => scanMountsByType fsType rest
      end
  end.

Definition findMountPoint (w : world) (fsType : string) : string :=
  match mounts w with
  | None => ""
  | Some text =>
      match scanMountsByType fsType (scanLines text) with
      | Some mountPoint => mountPoint
      | None =>
          if decide (fsType = "configfs") then
            if dirExists w "/sys/kernel/config" then "/sys/kernel/config"
            else if dirExists w "/config" then "/config"
            else ""
          else ""
      end
  end.

End Spec.

Import Examples.

(** ** Notions of the statements and proofs *)

Definition noSlash (c : string) : Prop := hasSlash c = false.
Definition pushable (c : string) : Prop := c <> "" /\ c <> "." /\ c <> "..".
Definition kept (c : string) : Prop := c <> "" /\ c <> "." /\ noSlash c.

(** The trees agree wherever a path does not pass through [g]. *)
Definition outside (g : list string) (t t' : node) : Prop :=
  forall q', ~ g `prefix_of` q' -> look t' q' = look t q'.

(** Same mount table and working directory. *)
Definition sameEnv (w w' : world) : Prop := mounts w' = mounts w /\ cwd w' = cwd w.

(** What a path leads to when the symbolic links on it are followed, the
    last one too. *)
Definition leadsTo (w : world) (p : string) (v : view) : Prop :=
  exists q, Namei.namei w true p = Ok q /\ look (root w) q = v.

(** One step of the chain of links [validateSafePath] walks: [p] is a
    symbolic link, and [q] is its target as [validateSafePath] resolves
    it. *)
Definition follows (w : world) (p q : string) : Prop :=
  exists linkTarget,
    Namei.os_Readlink w p = Ok linkTarget
    /\ q = if filepath.IsAbs linkTarget then linkTarget
           else filepath.Join [filepath.Dir p; linkTarget].


Definition keeps {A} (P : world -> Prop) (m : M A) : Prop :=
  forall w, P w -> P (snd (m w)).

(** The file at [pu] as a property of the worlds that follow [w0]. *)
Definition holds (w0 : world) (pu : string) (v : view) (w : world) : Prop :=
  sameEnv w0 w /\ at_ w pu = v.


(** Two worlds in which every path names the same kind of node, with the
    same entries or target. *)
Definition sameShape (w w' : world) : Prop :=
  sameEnv w w'
  /\ forall p, match at_ w p, at_ w' p with
               | VFile _, VFile _ => True
               | v, v' => v = v'
               end.

(** The world [w'] differs from [w] below the directory [G] only. *)
Definition below (G : list string) (w w' : world) : Prop :=
  sameEnv w w' /\ outside G (root w) (root w').

(** The directory of the mass-storage function and the LUN file. *)
Definition msRoot (g : string) : string :=
  filepath.Join [filepath.Join [g; "functions"]; "mass_storage.0"].
Definition lunFileOf (g : string) : string :=
  filepath.Join [filepath.Join [msRoot g; "lun.0"]; "file"].

(** What a successful [Mount] or [Unmount] leaves: the gadget is found
    again, bound to its controller, and the LUN file holds [data]. *)
Definition gadgetReady (w : world) (g data : string) : Prop :=
  ConfigFS.findGadgetRoot w = Ok g
  /\ (exists udc, udc <> "" /\ TrimSpace udc = udc
                  /\ at_ w (filepath.Join [g; "UDC"]) = VFile (udc +:+ nl))
  /\ at_ w (lunFileOf g) = VFile data.



(** A decoder that reads every text as the same configuration. *)
Definition cdromConfig (data : string) : result error Config :=
  Ok {| cfgFile := "x.iso"; cfgMode := "cdrom"; cfgBackend := "sysfs" |}.

(** The [cdrom] and [ro] attributes of the LUN. *)
Definition cdromOf (g : string) : string :=
  filepath.Join [filepath.Join [msRoot g; "lun.0"]; "cdrom"].
Definition roOf (g : string) : string :=
  filepath.Join [filepath.Join [msRoot g; "lun.0"]; "ro"].

(** From [w] to [w'] nothing changes but the content of the regular file
    [f], if that. *)
Definition onlyContent (f : string) (w w' : world) : Prop :=
  sameShape w w'
  /\ forall p, resolve w p <> resolve w f -> at_ w' p = at_ w p.


(** A device whose sysfs gadget has no mass-storage function. *)
Definition noLun : world :=
  {| mounts := Some "";
     cwd := [];
     root := Dir [ ("sys", Dir [ ("devices", Dir [ ("virtual", Dir [ ("android_usb",
               Dir [ ("android0", Dir [ ("enable", attr "1");
                                        ("functions", attr "mtp") ]) ]) ]) ]) ]) ];
     written := [] |}.

(** The world [w] follows [w0], changed below the directory [G] only,
    which is still there. *)
Definition within (G : list string) (w0 w : world) : Prop :=
  below G w0 w /\ is_Some (lookup (root w) G).


(** The directory of the three attributes of sysfs.go. *)
Definition android0 : list string := ["sys"; "devices"; "virtual"; "android_usb"; "android0"].

(** * Properties *)

(** ** White space *)

(** No white space rune of two or three bytes ends in a newline. *)
Lemma spaceRune_nl2 a : spaceRune (String a (String LF "")) = false.
Proof.
  destruct (spaceRune _) eqn:E; [|done]. exfalso.
  apply bool_decide_eq_true in E. cbv [map White_Space] in E.
  repeat (apply elem_of_cons in E as [E|E]; [vm_compute in E; discriminate E|]).
  by apply elem_of_nil in E.
Qed.

Lemma spaceRune_nl3 a b : spaceRune (String a (String b (String LF ""))) = false.
Proof.
  destruct (spaceRune _) eqn:E; [|done]. exfalso.
  apply bool_decide_eq_true in E. cbv [map White_Space] in E.
  repeat (apply elem_of_cons in E as [E|E]; [vm_compute in E; discriminate E|]).
  by apply elem_of_nil in E.
Qed.

Lemma trimRight_cons c s :
  trimRight (String c s)
  = if spaceRune (String c (trimRight s)) then "" else String c (trimRight s).
Proof. reflexivity. Qed.

Lemma trimRight_app_nl s : trimRight (s +:+ nl) = trimRight s.
Proof.
  induction s as [|c s IH]; [by vm_compute|].
  change (String c s +:+ nl) with (String c (s +:+ nl)).
  by rewrite !trimRight_cons, IH.
Qed.

Lemma trimLeft_app_nl s :
  trimLeft (s +:+ nl) = trimLeft s +:+ nl \/ (trimLeft (s +:+ nl) = "" /\ trimLeft s = "").
Proof.
  remember (String.length s) as n eqn:Hn.
  assert (Hle : String.length s <= n) by lia. clear Hn.
  revert s Hle. induction n as [|n IH]; intros s Hle.
  { destruct s; [|simpl in Hle; lia]. right. by vm_compute. }
  destruct s as [|a [|b [|c s]]].
  - right. by vm_compute.
  - change (String a "" +:+ nl) with (String a (String LF "")).
    cbn [trimLeft]. destruct (spaceRune (String a "")) eqn:Ea.
    + right. by vm_compute.
    + left. by rewrite spaceRune_nl2.
  - change (String a (String b "") +:+ nl) with (String a (String b (String LF ""))).
    cbn [trimLeft]. destruct (spaceRune (String a "")) eqn:Ea.
    + apply (IH (String b "")). simpl in *. lia.
    + destruct (spaceRune (String a (String b ""))) eqn:Eb.
      * right. by vm_compute.
      * left. by rewrite spaceRune_nl3.
  - change (String a (String b (String c s)) +:+ nl)
      with (String a (String b (String c (s +:+ nl)))).
    cbn [trimLeft]. destruct (spaceRune (String a "")) eqn:Ea.
    + apply (IH (String b (String c s))). simpl in *. lia.
    + destruct (spaceRune (String a (String b ""))) eqn:Eb.
      * apply (IH (String c s)). simpl in *. lia.
      * destruct (spaceRune (String a (String b (String c "")))) eqn:Ec.
        -- apply (IH s). simpl in *. lia.
        -- by left.
Qed.

Lemma TrimSpace_app_nl s : TrimSpace (s +:+ nl) = TrimSpace s.
Proof.
  unfold TrimSpace. destruct (trimLeft_app_nl s) as [->|[-> ->]].
  - apply trimRight_app_nl.
  - reflexivity.
Qed.

Lemma trimLeft_head s : spaceWidth (trimLeft s) = 0.
Proof.
  remember (String.length s) as n eqn:Hn.
  assert (Hle : String.length s <= n) by lia. clear Hn.
  revert s Hle. induction n as [|n IH]; intros s Hle.
  { by destruct s; [|simpl in Hle; lia]. }
  destruct s as [|a [|b [|c s]]]; [done|..]; cbn [trimLeft].
  - destruct (spaceRune (String a "")) eqn:Ea; [done|]. simpl. by rewrite Ea.
  - destruct (spaceRune (String a "")) eqn:Ea.
    + apply (IH (String b "")). simpl in *. lia.
    + destruct (spaceRune (String a (String b ""))) eqn:Eb; [done|].
      simpl. by rewrite Ea, Eb.
  - destruct (spaceRune (String a "")) eqn:Ea.
    + apply (IH (String b (String c s))). simpl in *. lia.
    + destruct (spaceRune (String a (String b ""))) eqn:Eb.
      * apply (IH (String c s)). simpl in *. lia.
      * destruct (spaceRune (String a (String b (String c "")))) eqn:Ec.
        -- apply (IH s). simpl in *. lia.
        -- simpl. by rewrite Ea, Eb, Ec.
Qed.

Lemma trimLeft_id s : spaceWidth s = 0 -> trimLeft s = s.
Proof.
  destruct s as [|a [|b [|c s]]]; [done|..]; cbn [trimLeft spaceWidth];
    repeat (destruct (spaceRune _); [done|]); done.
Qed.

Lemma spaceWidth_app s x : spaceWidth s <> 0 -> spaceWidth (s +:+ x) <> 0.
Proof.
  destruct s as [|a [|b [|c s]]]; [done|..];
    [change (String a "" +:+ x) with (String a x)
    |change (String a (String b "") +:+ x) with (String a (String b x))
    |change (String a (String b (String c s)) +:+ x)
       with (String a (String b (String c (s +:+ x))))];
    cbn [spaceWidth]; repeat (destruct (spaceRune _); [done|]); try done;
    destruct x as [|? [|? ?]]; try done.
Qed.

Lemma trimRight_prefix s : exists x, s = trimRight s +:+ x.
Proof.
  induction s as [|c s [x IH]]; [by exists ""|].
  rewrite trimRight_cons. destruct (spaceRune _).
  - by eexists.
  - exists x. change (String c (trimRight s) +:+ x) with (String c (trimRight s +:+ x)).
    by rewrite <- IH.
Qed.

Lemma trimRight_head s : spaceWidth s = 0 -> spaceWidth (trimRight s) = 0.
Proof.
  intros H. destruct (trimRight_prefix s) as [x Hx].
  destruct (decide (spaceWidth (trimRight s) = 0)) as [|Hn]; [done|].
  apply (spaceWidth_app _ x) in Hn. by rewrite <- Hx in Hn.
Qed.

Lemma trimRight_idem s : trimRight (trimRight s) = trimRight s.
Proof.
  induction s as [|c s IH]; [reflexivity|]. rewrite trimRight_cons.
  destruct (spaceRune _) eqn:E; [reflexivity|].
  by rewrite trimRight_cons, IH, E.
Qed.

Lemma TrimSpace_idem s : TrimSpace (TrimSpace s) = TrimSpace s.
Proof.
  unfold TrimSpace. rewrite (trimLeft_id (trimRight _)).
  - apply trimRight_idem.
  - apply trimRight_head, trimLeft_head.
Qed.

Lemma validName_spec n : validName n = true <-> pushable n /\ noSlash n.
Proof.
  unfold validName, pushable, noSlash.
  rewrite !andb_true_iff, !negb_true_iff, !bool_decide_eq_false. tauto.
Qed.

Lemma Split_nonempty s sep : Split s sep <> [].
Proof.
  destruct s as [|c s]; simpl; [done|].
  destruct (decide (c = sep)); [done|]. by destruct (Split s sep).
Qed.

Lemma Split_app s b : Split (s +:+ String "/" b) "/" = Split s "/" ++ Split b "/".
Proof.
  induction s as [|c s IH]; simpl.
  - reflexivity.
  - destruct (decide (c = "/"%char)).
    + by rewrite IH.
    + rewrite IH. destruct (Split s "/") eqn:E; [by apply Split_nonempty in E|done].
Qed.

Lemma Split_noSlash n : noSlash n -> Split n "/" = [n].
Proof.
  unfold noSlash. induction n as [|c n IH]; simpl; [done|].
  rewrite orb_false_iff, bool_decide_eq_false. intros [Hc Hn].
  destruct (decide (c = "/"%char)); [done|]. by rewrite IH.
Qed.

Lemma Split_elems s : Forall noSlash (Split s "/").
Proof.
  induction s as [|c s IH]; simpl.
  - by repeat constructor.
  - destruct (decide (c = "/"%char)).
    + by constructor.
    + destruct (Split s "/") as [|h t]; [by repeat constructor; unfold noSlash; simpl;
        rewrite bool_decide_eq_false_2|].
      apply Forall_cons in IH as [Hh Ht]. constructor; [|done].
      unfold noSlash in *. simpl. by rewrite Hh, bool_decide_eq_false_2.
Qed.

Lemma slash_app (x : string) : "/" +:+ x = String "/" x.
Proof. reflexivity. Qed.

Lemma Split_JoinWith l :
  l <> [] -> Split (JoinWith "/" l) "/" = concat (map (fun e => Split e "/") l).
Proof.
  induction l as [|e l IH]; [done|]. intros _.
  destruct l as [|e' l].
  - simpl. by rewrite app_nil_r.
  - change (JoinWith "/" (e :: e' :: l)) with (e +:+ "/" +:+ JoinWith "/" (e' :: l)).
    rewrite slash_app, Split_app, IH by done. reflexivity.
Qed.

Lemma concat_Split_noSlash l :
  Forall noSlash l -> concat (map (fun e => Split e "/") l) = l.
Proof.
  induction 1 as [|e l He _ IH]; simpl; [done|].
  by rewrite Split_noSlash, IH.
Qed.

Lemma resolveStep_push st c : pushable c -> resolveStep st c = c :: st.
Proof.
  intros (H1 & H2 & H3). unfold resolveStep.
  by rewrite !decide_False.
Qed.

Lemma fold_resolve_push l acc :
  Forall pushable l -> fold_left resolveStep l acc = rev l ++ acc.
Proof.
  intros H. revert acc. induction H as [|c l Hc _ IH]; intros acc; simpl; [done|].
  rewrite resolveStep_push, IH by done. by rewrite <- app_assoc.
Qed.

Lemma cleanStep_kept r S c :
  Forall kept S -> noSlash c -> Forall kept (filepath.cleanStep r S c).
Proof.
  intros HS Hc. unfold filepath.cleanStep.
  destruct (decide (c = "")); [done|]. destruct (decide (c = ".")); [done|].
  destruct (decide (c = "..")) as [->|].
  - destruct S as [|top S'].
    + destruct r; [done|]. by repeat constructor.
    + destruct (decide (top = "..")).
      * by constructor.
      * by apply Forall_cons in HS as [_ HS].
  - by constructor.
Qed.

Lemma fold_clean_kept r X S :
  Forall kept S -> Forall noSlash X -> Forall kept (fold_left (filepath.cleanStep r) X S).
Proof.
  intros HS HX. revert S HS. induction HX as [|c X Hc _ IH]; intros S HS; simpl; [done|].
  apply IH. by apply cleanStep_kept.
Qed.

Lemma fold_resolve_snoc l c acc :
  fold_left resolveStep (l ++ [c]) acc = resolveStep (fold_left resolveStep l acc) c.
Proof. by rewrite fold_left_app. Qed.

Lemma clean_resolve_step r S c base :
  (r = true -> base = []) -> Forall kept S ->
  fold_left resolveStep (rev (filepath.cleanStep r S c)) base
  = resolveStep (fold_left resolveStep (rev S) base) c.
Proof.
  intros Hb HS. unfold filepath.cleanStep.
  destruct (decide (c = "")) as [->|]; [done|].
  destruct (decide (c = ".")) as [->|]; [done|].
  destruct (decide (c = "..")) as [->|].
  - destruct S as [|top S'].
    + destruct r; simpl; [by rewrite Hb|done].
    + destruct (decide (top = "..")) as [->|Hne].
      * simpl rev at 1. by rewrite fold_resolve_snoc.
      * simpl rev. rewrite fold_resolve_snoc.
        apply Forall_cons in HS as [(H1 & H2 & _) _].
        by rewrite (resolveStep_push _ top).
  - simpl rev. rewrite fold_resolve_snoc. reflexivity.
Qed.

Lemma clean_resolve r X S base :
  (r = true -> base = []) -> Forall kept S -> Forall noSlash X ->
  fold_left resolveStep (rev (fold_left (filepath.cleanStep r) X S)) base
  = fold_left resolveStep X (fold_left resolveStep (rev S) base).
Proof.
  intros Hb HS HX. revert S HS.
  induction HX as [|c X Hc _ IH]; intros S HS; simpl; [done|].
  rewrite IH by (by apply cleanStep_kept).
  by rewrite clean_resolve_step.
Qed.

Lemma IsAbs_cons c s : filepath.IsAbs (String c s) = bool_decide (c = "/"%char).
Proof.
  unfold filepath.IsAbs, HasPrefix.
  change (String.prefix "/" (String c s))
    with (if ascii_dec "/" c then String.prefix "" s else false).
  destruct (ascii_dec "/" c) as [<-|Hne].
  - by destruct s.
  - symmetry. apply bool_decide_eq_false_2. congruence.
Qed.

Lemma IsAbs_app a b : a <> "" -> filepath.IsAbs (a +:+ b) = filepath.IsAbs a.
Proof.
  destruct a as [|c a]; [done|]. intros _.
  change (String c a +:+ b) with (String c (a +:+ b)). by rewrite !IsAbs_cons.
Qed.

Lemma IsAbs_noSlash c : noSlash c -> filepath.IsAbs c = false.
Proof.
  destruct c as [|a c]; [done|]. unfold noSlash. simpl.
  rewrite orb_false_iff. intros [H _]. by rewrite IsAbs_cons.
Qed.

Lemma JoinWith_cons_nonempty e l : e <> "" -> JoinWith "/" (e :: l) <> "".
Proof. destruct e; [done|]. intros _. by destruct l. Qed.

Lemma IsAbs_JoinWith e l : e <> "" -> filepath.IsAbs (JoinWith "/" (e :: l)) = filepath.IsAbs e.
Proof.
  intros He. destruct l as [|e' l]; [done|].
  change (JoinWith "/" (e :: e' :: l)) with (e +:+ "/" +:+ JoinWith "/" (e' :: l)).
  by apply IsAbs_app.
Qed.

Lemma Clean_nonempty p : filepath.Clean p <> "".
Proof.
  unfold filepath.Clean. destruct (decide (p = "")); [done|].
  destruct (filepath.IsAbs p); [done|].
  by destruct (decide (_ = "")).
Qed.

Lemma Split_slash_cons x : Split (String "/" x) "/" = "" :: Split x "/".
Proof. reflexivity. Qed.

(** What [filepath.Clean] leaves of a path, as a list of elements. *)
Lemma Clean_elems p :
  p <> "" ->
  let st := fold_left (filepath.cleanStep (filepath.IsAbs p)) (Split p "/") [] in
  Forall kept st
  /\ filepath.IsAbs (filepath.Clean p) = filepath.IsAbs p
  /\ forall base,
       fold_left resolveStep (Split (filepath.Clean p) "/") base
       = fold_left resolveStep (rev st) base.
Proof.
  intros Hp st.
  assert (Hst : Forall kept st) by (apply fold_clean_kept; [done|apply Split_elems]).
  assert (Hrev : Forall noSlash (rev st)).
  { apply Forall_rev. eapply Forall_impl; [exact Hst|]. by intros c (_ & _ & H). }
  split; [done|].
  unfold filepath.Clean. rewrite decide_False by done. fold st.
  destruct (filepath.IsAbs p) eqn:Habs.
  - split; [by rewrite slash_app, IsAbs_cons|].
    intros base. rewrite slash_app, Split_slash_cons.
    change (fold_left resolveStep ("" :: ?l) base) with (fold_left resolveStep l base).
    destruct (rev st) as [|e l] eqn:E; [done|].
    rewrite Split_JoinWith, concat_Split_noSlash by done. reflexivity.
  - destruct (rev st) as [|e l] eqn:E.
    + simpl. split; [done|]. by intros base.
    + assert (He : e <> "").
      { assert (H : kept e).
        { rewrite Forall_forall in Hst. apply Hst. apply list_elem_of_In, in_rev.
          rewrite E. by left. }
        by destruct H. }
      rewrite decide_False by (by apply JoinWith_cons_nonempty).
      split.
      * rewrite IsAbs_JoinWith by done. apply IsAbs_noSlash.
        by apply Forall_cons in Hrev as [H _].
      * intros base. by rewrite Split_JoinWith, concat_Split_noSlash.
Qed.

Lemma resolve_Clean w p : p <> "" -> resolve w (filepath.Clean p) = resolve w p.
Proof.
  intros Hp. destruct (Clean_elems p Hp) as (Hst & Habs & Hfold).
  unfold resolve. rewrite Habs, Hfold. f_equal.
  rewrite clean_resolve; [done| |done|apply Split_elems].
  intros H. by rewrite H.
Qed.

Lemma Join_cons d es : d <> "" -> filepath.Join (d :: es) = filepath.Clean (JoinWith "/" (d :: es)).
Proof. intros Hd. unfold filepath.Join. simpl. by rewrite decide_False. Qed.

Lemma Join_nonempty d es : d <> "" -> filepath.Join (d :: es) <> "".
Proof. intros Hd. rewrite Join_cons by done. apply Clean_nonempty. Qed.

(** Joining resolves to walking on from where the first element leads. *)
Lemma resolve_Join w d es :
  d <> "" ->
  resolve w (filepath.Join (d :: es))
  = rev (fold_left resolveStep (concat (map (fun e => Split e "/") es)) (rev (resolve w d))).
Proof.
  intros Hd. rewrite Join_cons, resolve_Clean by (done || by apply JoinWith_cons_nonempty).
  unfold resolve. rewrite IsAbs_JoinWith, Split_JoinWith by done.
  simpl. by rewrite fold_left_app, rev_involutive.
Qed.

Lemma resolve_Join_names w d es :
  d <> "" -> Forall (fun n => validName n = true) es ->
  resolve w (filepath.Join (d :: es)) = resolve w d ++ es.
Proof.
  intros Hd Hes. rewrite resolve_Join by done.
  rewrite concat_Split_noSlash.
  - rewrite fold_resolve_push.
    + by rewrite rev_app_distr, !rev_involutive.
    + eapply Forall_impl; [exact Hes|]. intros n Hn. by apply validName_spec in Hn as [? _].
  - eapply Forall_impl; [exact Hes|]. intros n Hn. by apply validName_spec in Hn as [_ ?].
Qed.

Lemma assoc_replace_eq c v es : is_Some (assoc c es) -> assoc c (replace c v es) = Some v.
Proof.
  induction es as [|[k x] es IH]; simpl; [by intros [? ?]|].
  destruct (decide (k = c)) as [->|Hne]; simpl.
  - by rewrite decide_True.
  - intros H. by rewrite decide_False, IH.
Qed.

Lemma assoc_replace_ne c k v es : k <> c -> assoc k (replace c v es) = assoc k es.
Proof.
  intros Hk. induction es as [|[k' x] es IH]; simpl; [done|].
  destruct (decide (k' = c)) as [->|Hne]; simpl.
  - by rewrite !decide_False.
  - by rewrite IH.
Qed.

Lemma names_replace c v es : map fst (replace c v es) = map fst es.
Proof.
  induction es as [|[k x] es IH]; simpl; [done|].
  destruct (decide (k = c)); simpl; by rewrite ?IH.
Qed.

Lemma assoc_insertSorted_eq c v es : assoc c es = None -> assoc c (insertSorted c v es) = Some v.
Proof.
  induction es as [|[k x] es IH]; simpl.
  - by rewrite decide_True.
  - destruct (decide (k = c)); [done|]. intros H.
    destruct (String.ltb c k); simpl.
    + by rewrite decide_True.
    + by rewrite decide_False, IH.
Qed.

Lemma assoc_insertSorted_ne c k v es : k <> c -> assoc k (insertSorted c v es) = assoc k es.
Proof.
  intros Hk. induction es as [|[k' x] es IH]; simpl.
  - by rewrite decide_False.
  - destruct (String.ltb c k'); simpl.
    + by rewrite (decide_False (P := c = k)).
    + by rewrite IH.
Qed.

Lemma assoc_put_eq c v es : assoc c (put c v es) = Some v.
Proof.
  unfold put. destruct (assoc c es) eqn:E.
  - apply assoc_replace_eq. by rewrite E.
  - by apply assoc_insertSorted_eq.
Qed.

Lemma assoc_put_ne c k v es : k <> c -> assoc k (put c v es) = assoc k es.
Proof.
  intros Hk. unfold put. destruct (assoc c es).
  - by apply assoc_replace_ne.
  - by apply assoc_insertSorted_ne.
Qed.

Lemma names_put c v es : is_Some (assoc c es) -> map fst (put c v es) = map fst es.
Proof. intros [x Hx]. unfold put. rewrite Hx. apply names_replace. Qed.

(** *** One update *)

Lemma updateAt_lookup f t q t' :
  updateAt f t q = Ok t' -> exists n, f (lookup t q) = Ok n /\ lookup t' q = Some n.
Proof.
  revert t t'. induction q as [|c q IH]; intros t t' H; simpl in H.
  - exists t'. by split.
  - destruct t as [|es|]; try done.
    destruct (assoc c es) as [tc|] eqn:E.
    + destruct (updateAt f tc q) as [tc'|] eqn:Hu; [|done].
      injection H as <-. destruct (IH _ _ Hu) as (n & Hf & Hl).
      exists n. simpl. by rewrite E, assoc_put_eq.
    + destruct q; [|done]. destruct (f None) as [n|] eqn:Hf; [|done].
      injection H as <-. exists n. simpl. by rewrite E, assoc_put_eq.
Qed.

(** An update at [q] shows at [q], below [q], and in the names of the
    directory [q] is an entry of; nowhere else. *)
Lemma updateAt_look_other f t q t' q' :
  updateAt f t q = Ok t' ->
  ~ q `prefix_of` q' -> (forall c, q <> q' ++ [c]) ->
  look t' q' = look t q'.
Proof.
  revert t t' q'. induction q as [|c q IH]; intros t t' q' H Hp Hc.
  - destruct Hp. apply prefix_nil.
  - simpl in H. destruct t as [|es|]; try done.
    destruct (assoc c es) as [tc|] eqn:E.
    + destruct (updateAt f tc q) as [tc'|] eqn:Hu; [|done].
      injection H as <-. destruct q' as [|c' q'].
      * unfold look. simpl. rewrite names_put; [done|by rewrite E].
      * unfold look. simpl. destruct (decide (c' = c)) as [->|Hne].
        -- rewrite assoc_put_eq, E. apply (IH tc tc' q' Hu).
           ++ intros Hq. apply Hp. by apply prefix_cons.
           ++ intros c0 ->. by apply (Hc c0).
        -- by rewrite assoc_put_ne.
    + destruct q; [|done]. destruct (f None) as [n|] eqn:Hf; [|done].
      injection H as <-. destruct q' as [|c' q'].
      * by destruct (Hc c).
      * unfold look. simpl. destruct (decide (c' = c)) as [->|Hne].
        -- destruct Hp. apply prefix_cons, prefix_nil.
        -- by rewrite assoc_put_ne.
Qed.


Lemma lookup_path_app t q k : lookup t (q ++ k) = lookup t q ≫= fun n => lookup n k.
Proof.
  revert t. induction q as [|c q IH]; intros t; simpl; [done|].
  destruct t as [|es|]; try done. destruct (assoc c es); [apply IH|done].
Qed.


(** An update succeeds where the directories above exist and [f] agrees. *)
Lemma updateAt_ok f t q x n :
  lookup t q = Some x -> f (Some x) = Ok n -> exists t', updateAt f t q = Ok t'.
Proof.
  revert t. induction q as [|c q IH]; intros t Hl Hf; simpl in *.
  - injection Hl as ->. by exists n.
  - destruct t as [|es|]; try done. destruct (assoc c es) as [tc|]; [|done].
    destruct (IH tc Hl Hf) as [tc' ->]. by eexists.
Qed.

(** *** mkdirAll *)

Lemma mkdirAll_look_other t q t' q' :
  mkdirAll t q = Ok t' -> ~ q' `prefix_of` q -> look t' q' = look t q'.
Proof.
  revert t t' q'. induction q as [|c q IH]; intros t t' q' H Hp.
  - destruct t; try done. by injection H as <-.
  - simpl in H. destruct t as [|es|]; try done.
    destruct (mkdirAll (default (Dir []) (assoc c es)) q) as [tc'|] eqn:Hm; [|done].
    injection H as <-. destruct q' as [|c' q']; [destruct Hp; apply prefix_nil|].
    unfold look. simpl. destruct (decide (c' = c)) as [->|Hne].
    + rewrite assoc_put_eq.
      assert (Hq : ~ q' `prefix_of` q) by (intros Hq; apply Hp; by apply prefix_cons).
      fold (look tc' q'). rewrite (IH _ _ _ Hm Hq).
      destruct (assoc c es) as [tc|]; [done|].
      unfold look. destruct q'; [destruct Hq; apply prefix_nil|done].
    + by rewrite assoc_put_ne.
Qed.

Lemma mkdirAll_dir t q t' :
  mkdirAll t q = Ok t' -> exists es, lookup t' q = Some (Dir es).
Proof.
  revert t t'. induction q as [|c q IH]; intros t t' H.
  - destruct t; try done. injection H as <-. by eexists.
  - simpl in H. destruct t as [|es|]; try done.
    destruct (mkdirAll (default (Dir []) (assoc c es)) q) as [tc'|] eqn:Hm; [|done].
    injection H as <-. simpl. rewrite assoc_put_eq. by apply (IH _ _ Hm).
Qed.

(** *** Changes below a directory *)

Lemma outside_refl g t : outside g t t.
Proof. by intros q' _. Qed.

Lemma outside_trans g t1 t2 t3 : outside g t1 t2 -> outside g t2 t3 -> outside g t1 t3.
Proof. intros H1 H2 q' Hq. by rewrite H2, H1. Qed.

Lemma updateAt_outside f t q t' g :
  updateAt f t q = Ok t' -> g `prefix_of` q -> g <> q -> outside g t t'.
Proof.
  intros H [k ->] Hne q' Hq. apply (updateAt_look_other _ _ _ _ _ H).
  - intros Hp. apply Hq. etrans; [|exact Hp]. by apply prefix_app_r.
  - intros c Heq. destruct k as [|c0 k _] using rev_ind; [by rewrite app_nil_r in Hne|].
    rewrite app_assoc in Heq. apply app_inj_tail in Heq as [<- _].
    apply Hq. by apply prefix_app_r.
Qed.

Lemma mkdirAll_outside t q t' g :
  mkdirAll t q = Ok t' -> g `prefix_of` q -> is_Some (lookup t g) -> outside g t t'.
Proof.
  revert t t' q. induction g as [|c g IH]; intros t t' q H Hp Hs q' Hq.
  - destruct Hq. apply prefix_nil.
  - destruct Hp as [k ->]. simpl in H, Hs. destruct t as [|es|]; try done.
    destruct (assoc c es) as [tc|] eqn:E; [|by destruct Hs]. simpl in H.
    destruct (mkdirAll tc (g ++ k)) as [tc'|] eqn:Hm; [|done].
    injection H as <-. destruct q' as [|c' q'].
    + unfold look. simpl. rewrite names_put; [done|by rewrite E].
    + unfold look. simpl. destruct (decide (c' = c)) as [->|Hne].
      * rewrite assoc_put_eq, E. apply (IH tc tc' (g ++ k) Hm); [by apply prefix_app_r|done|].
        intros Hp. apply Hq. by apply prefix_cons.
      * by rewrite assoc_put_ne.
Qed.

(** *** Commands, step by step *)

Lemma bind_inv {A B} (m : M A) (k : A -> M B) w b w2 :
  bind m k w = (Ok b, w2) -> exists a w1, m w = (Ok a, w1) /\ k a w1 = (Ok b, w2).
Proof.
  unfold bind. destruct (m w) as [[a|e] w1]; [|done]. intros H. by exists a, w1.
Qed.

Lemma wrap_inv {A} ctx (m : M A) w a w1 : wrap ctx m w = (Ok a, w1) -> m w = (Ok a, w1).
Proof. unfold wrap. by destruct (m w) as [[a'|e] w']. Qed.

Lemma try_inv {A} (f : world -> result error A) w a w1 :
  try f w = (Ok a, w1) -> f w = Ok a /\ w1 = w.
Proof. unfold try. by intros [= -> ->]. Qed.

Lemma get_inv {A} (f : world -> A) w a w1 : get f w = (Ok a, w1) -> a = f w /\ w1 = w.
Proof. unfold get. by intros [= -> ->]. Qed.

Lemma unless_inv cond m w w1 :
  unless cond m w = (Ok tt, w1) ->
  (cond w = true /\ w1 = w) \/ (cond w = false /\ m w = (Ok tt, w1)).
Proof. unfold unless. destruct (cond w); [intros [= ->]; by left|by right]. Qed.

Lemma defer_inv {A} cleanup (body : M A) w r w2 :
  defer cleanup body w = (r, w2) -> exists w1, body w = (r, w1) /\ w2 = snd (cleanup w1).
Proof. unfold defer. destruct (body w) as [r' w1]. intros [= -> <-]. by exists w1. Qed.

(** *** What a change of the tree leaves as it is *)

Lemma resolve_cwd w w' p : cwd w' = cwd w -> resolve w' p = resolve w p.
Proof. unfold resolve. by intros ->. Qed.

Lemma sameEnv_refl w : sameEnv w w.
Proof. done. Qed.

Lemma sameEnv_trans w1 w2 w3 : sameEnv w1 w2 -> sameEnv w2 w3 -> sameEnv w1 w3.
Proof. intros [? ?] [? ?]. split; congruence. Qed.

Lemma sameEnv_resolve w w' p : sameEnv w w' -> resolve w' p = resolve w p.
Proof. intros [_ H]. by apply resolve_cwd. Qed.

Lemma change_inv op p f w w1 :
  change op p f w = (Ok tt, w1) ->
  sameEnv w w1 /\ written w1 = written w /\ f (root w) (resolve w p) = Ok (root w1).
Proof.
  unfold change. destruct (f (root w) (resolve w p)) as [t|e]; [|done].
  by intros [= <-].
Qed.

Lemma change_env op p f w : sameEnv w (snd (change op p f w)).
Proof. unfold change. by destruct (f (root w) (resolve w p)). Qed.

Lemma writeFile_inv p c w w1 :
  writeFile p c w = (Ok tt, w1) ->
  sameEnv w w1 /\ updateAt (writeNode (c +:+ nl)) (root w) (resolve w p) = Ok (root w1).
Proof.
  unfold writeFile, os_WriteFile. intros H. apply change_inv in H as (He & _ & Hu).
  by split.
Qed.

Lemma writeFile_env p c w : sameEnv w (snd (writeFile p c w)).
Proof. unfold writeFile, os_WriteFile. apply (change_env _ _ _ (logWrite _ _ w)). Qed.

Lemma writeFile_written p c w :
  written (snd (writeFile p c w)) = (p, c +:+ nl) :: written w.
Proof.
  unfold writeFile, os_WriteFile, change.
  by destruct (updateAt _ _ _).
Qed.

Lemma writeNode_inv data o n : writeNode data o = Ok n -> n = Reg data.
Proof. destruct o as [[| |]|]; simpl; congruence. Qed.

(** After a write the file holds the data. *)
Lemma writeFile_at p c w w1 :
  writeFile p c w = (Ok tt, w1) -> at_ w1 p = VFile (c +:+ nl).
Proof.
  intros H. apply writeFile_inv in H as (He & Hu).
  apply updateAt_lookup in Hu as (n & Hn & Hl). apply writeNode_inv in Hn as ->.
  unfold at_, look. by rewrite (sameEnv_resolve _ _ _ He), Hl.
Qed.

(** A write succeeds on a regular file. *)
Lemma writeFile_ok p c w d :
  at_ w p = VFile d -> exists w1, writeFile p c w = (Ok tt, w1).
Proof.
  unfold at_, look. intros H.
  destruct (lookup (root w) (resolve w p)) as [[d'| |]|] eqn:E; try done.
  destruct (updateAt_ok (writeNode (c +:+ nl)) _ _ _ (Reg (c +:+ nl)) E eq_refl) as [t' Ht].
  unfold writeFile, os_WriteFile, change.
  change (root (logWrite p (c +:+ nl) w)) with (root w).
  change (resolve (logWrite p (c +:+ nl) w) p) with (resolve w p).
  rewrite Ht. by eexists.
Qed.

Lemma readFile_at w p d : at_ w p = VFile d -> readFile w p = Ok (TrimSpace d).
Proof. intros H. unfold readFile, os_ReadFile. by rewrite H. Qed.

Lemma readFile_inv w p s : readFile w p = Ok s -> exists d, at_ w p = VFile d /\ s = TrimSpace d.
Proof.
  unfold readFile, os_ReadFile. destruct (at_ w p); try done. intros [= <-]. by eexists.
Qed.

(** ** Paths through symbolic links *)

Lemma follows_next w p q q' : follows w p q -> follows w p q' -> q = q'.
Proof. intros (t & Ht & ->) (t' & Ht' & ->). rewrite Ht in Ht'. by injection Ht' as ->. Qed.




Lemma Stat_inv w p info :
  Namei.os_Stat w p = Ok info ->
  (exists d, leadsTo w p (VFile d) /\ info = {| IsDir := false; Size := String.length d |})
  \/ (exists names, leadsTo w p (VDir names) /\ info = {| IsDir := true; Size := 0 |}).
Proof.
  unfold Namei.os_Stat, leadsTo. destruct (Namei.namei w true p) as [q|e] eqn:Hq; [|done].
  destruct (look (root w) q) as [|d|names|t] eqn:Hv; try done; intros [= <-].
  - left. exists d. split; [by exists q|done].
  - right. exists names. split; [by exists q|done].
Qed.

(** *** When validateSafePath returns *)






(** *** Paths without links

    On an absolute path of plain names that the lookup of [OS] finds, no
    link lies on the way, and the walk of [Namei] comes to the same
    place: where its path is found as a file or as a directory, a call of
    [OS] answers as the call of [Namei] does. *)

Lemma walk_cons links t follow cur c rest :
  Namei.walk links t follow cur (c :: rest)
  = match look t cur with
    | VDir _ =>
        if decide (c = "") then Namei.walk links t follow cur rest
        else if decide (c = ".") then Namei.walk links t follow cur rest
        else if decide (c = "..") then Namei.walk links t follow (removelast cur) rest
        else
          match look t (cur ++ [c]) with
          | VNone => Err ENOENT
          | VLink target =>
              if negb follow && bool_decide (rest = []) then Ok (cur ++ [c])
              else if decide (target = "") then Err ENOENT
              else
                match links with
                | 0 => Err ELOOP
                | S links' =>
                    Namei.walk links' t follow
                      (if filepath.IsAbs target then [] else cur)
                      (Split target "/" ++ rest)
                end
          | _ => Namei.walk links t follow (cur ++ [c]) rest
          end
    | VNone => Err ENOENT
    | _ => Err ENOTDIR
    end.
Proof. by destruct links. Qed.

Lemma walk_nil links t follow cur : Namei.walk links t follow cur [] = Ok cur.
Proof. by destruct links. Qed.

Lemma walk_plain links t follow names cur :
  Forall pushable names ->
  match look t (cur ++ names) with
  | VNone => False
  | VLink _ => follow = false
  | _ => True
  end ->
  Namei.walk links t follow cur names = Ok (cur ++ names).
Proof.
  intros Hp. revert cur. induction Hp as [|c rest (H1 & H2 & H3) _ IH]; intros cur Hv.
  { by rewrite walk_nil, app_nil_r. }
  rewrite walk_cons. unfold look in *. rewrite lookup_path_app in Hv.
  destruct (lookup t cur) as [n0|] eqn:Hcur; [|done]. simpl in Hv.
  destruct n0 as [|es|]; try done. simpl.
  rewrite !decide_False by done. rewrite lookup_path_app, Hcur. simpl.
  destruct (assoc c es) as [n1|] eqn:Hc; [|done].
  assert (Hnext : match view_of (lookup t ((cur ++ [c]) ++ rest)) with
                  | VNone => False | VLink _ => follow = false | _ => True end).
  { rewrite lookup_path_app, lookup_path_app, Hcur. simpl. by rewrite Hc. }
  destruct n1 as [d|es1|target]; simpl.
  - rewrite IH by done. by rewrite <- app_assoc.
  - rewrite IH by done. by rewrite <- app_assoc.
  - destruct rest as [|c' rest]; [|done]. simpl in Hv. by rewrite Hv.
Qed.

Lemma namei_plain w follow p names :
  filepath.IsAbs p = true ->
  Split p "/" = "" :: names -> Forall pushable names ->
  match at_ w p with
  | VNone => False
  | VLink _ => follow = false
  | _ => True
  end ->
  resolve w p = names /\ Namei.namei w follow p = Ok names.
Proof.
  intros Habs Hs Hn Hv.
  assert (Hr : resolve w p = names).
  { unfold resolve. rewrite Habs, Hs. simpl.
    rewrite fold_resolve_push by done. by rewrite app_nil_r, rev_involutive. }
  split; [done|]. unfold at_ in Hv. rewrite Hr in Hv.
  unfold Namei.namei. rewrite decide_False by (by intros ->). rewrite Habs, Hs.
  destruct names as [|c rest].
  { by destruct p as [|a [|b p]]; simpl in Hs; repeat case_decide;
      try destruct (Split _ _). }
  rewrite walk_cons.
  assert (Hroot : exists ns, look (root w) [] = VDir ns).
  { unfold look in *. simpl in *. destruct (root w) as [|es|]; try done. by eexists. }
  destruct Hroot as [ns ->]. rewrite decide_True by done.
  by apply (walk_plain _ _ _ _ []).
Qed.

(** The calls of the two modules agree on such a path. *)
Lemma Stat_plain w p names :
  filepath.IsAbs p = true ->
  Split p "/" = "" :: names -> Forall pushable names ->
  (exists d, at_ w p = VFile d) \/ (exists ns, at_ w p = VDir ns) ->
  Namei.os_Stat w p = os_Stat w p /\ Namei.os_ReadFile w p = os_ReadFile w p.
Proof.
  intros Habs Hs Hn Hv.
  destruct (namei_plain w true p names Habs Hs Hn) as [Hr Hq].
  { by destruct Hv as [[d ->]|[ns ->]]. }
  unfold Namei.os_Stat, Namei.os_ReadFile, os_Stat, os_ReadFile, at_.
  rewrite Hq, Hr. unfold at_ in Hv. rewrite Hr in Hv.
  by destruct Hv as [[d ->]|[ns ->]].
Qed.

(** ** The backend selector *)

Lemma firstSupported_ok w bs b :
  firstSupported w bs = Ok b <->
  exists pre post, bs = pre ++ b :: post /\ Supported b w = true
                   /\ Forall (fun b' => Supported b' w = false) pre.
Proof.
  induction bs as [|b0 bs IH]; simpl.
  - split; [discriminate|]. intros (pre & post & H & _). by destruct pre.
  - destruct (Supported b0 w) eqn:Hs.
    + split.
      * intros [= <-]. exists [], bs. by repeat split.
      * intros (pre & post & H & Hb & Hpre). destruct pre as [|b1 pre]; simpl in H.
        -- by injection H as -> _.
        -- injection H as <- _. apply Forall_cons in Hpre as [Hb1 _]. congruence.
    + rewrite IH. split.
      * intros (pre & post & -> & Hb & Hpre). exists (b0 :: pre), post.
        repeat split; [done|]. by constructor.
      * intros (pre & post & H & Hb & Hpre). destruct pre as [|b1 pre]; simpl in H.
        -- injection H as -> _. congruence.
        -- injection H as <- ->. apply Forall_cons in Hpre as [_ Hpre].
           by exists pre, post.
Qed.

Lemma firstSupported_err w bs e :
  firstSupported w bs = Err e <->
  e = errNoBackend /\ Forall (fun b => Supported b w = false) bs.
Proof.
  induction bs as [|b0 bs IH]; simpl.
  - split; [by intros [= <-]|]. by intros [-> _].
  - destruct (Supported b0 w) eqn:Hs.
    + split; [discriminate|]. intros [_ H]. apply Forall_cons in H as [H _]. congruence.
    + rewrite IH. split; intros [-> H]; split; try done.
      * by constructor.
      * by apply Forall_cons in H as [_ H].
Qed.

(** C4. With no forced name, [selectBackend] goes through the candidates
    in the fixed order configfs, udc, sysfs and returns the first one whose
    [Supported] holds; it fails, with the no-backend error, exactly when no
    candidate is supported. *)
Theorem selectBackend_first_supported (w : world) :
  map Name backends = ["configfs"; "udc"; "sysfs"]
  /\ (forall b, selectBackend w "" = Ok b <->
        exists pre post, backends = pre ++ b :: post /\ Supported b w = true
                         /\ Forall (fun b' => Supported b' w = false) pre)
  /\ (forall e, selectBackend w "" = Err e <->
        e = errNoBackend /\ Forall (fun b => Supported b w = false) backends).
Proof.
  split; [reflexivity|]. split.
  - intros b. apply firstSupported_ok.
  - intros e. apply firstSupported_err.
Qed.


Lemma selectBackend_forced_known (w : world) (b : Backend) :
  b ∈ backends ->
  selectBackend w (Name b) = if Supported b w then Ok b else Err (errNotSupported (Name b)).
Proof.
  intros Hb. unfold backends in Hb.
  repeat (apply elem_of_cons in Hb as [->|Hb]); try reflexivity.
  by apply elem_of_nil in Hb.
Qed.

(** Configuration loading lets the backend name [legacy] through. *)
Lemma loadConfig_accepts_legacy unmarshal w path data file :
  Namei.os_ReadFile w path = Ok data ->
  unmarshal data = Ok {| cfgFile := file; cfgMode := ""; cfgBackend := "legacy" |} ->
  filepath.IsAbs file = true ->
  loadConfig unmarshal w path
  = Ok {| cfgFile := file; cfgMode := ""; cfgBackend := "legacy" |}.
Proof.
  intros Hr Hu Habs. unfold loadConfig. rewrite Hr, Hu. simpl.
  destruct (decide (file = "")) as [->|_]; [discriminate|].
  by rewrite Habs.
Qed.

(** C5 (fails on the code). The names [configfs] and [sysfs] are resolved
    to their candidates, but [legacy], which configuration loading accepts
    as well, matches no candidate: forcing it ends in the unknown-backend
    error, whatever the device supports. *)
Theorem selectBackend_legacy_unknown (w : world) :
  selectBackend w "configfs"
    = (if ConfigFS.Supported w then Ok ConfigFSBackend else Err (errNotSupported "configfs"))
  /\ selectBackend w "sysfs"
    = (if Sysfs.Supported w then Ok SysfsBackend else Err (errNotSupported "sysfs"))
  /\ selectBackend w "legacy" = Err (errUnknownBackend "legacy").
Proof. repeat split. Qed.

(** ** The mount table *)

Lemma findMountPoint_fallback (w : world) (text : string) :
  mounts w = Some text ->
  scanMounts "configfs" (scanLines text) = None ->
  findMountPoint w "configfs" =
    if dirExists w "/sys/kernel/config" then "/sys/kernel/config"
    else if dirExists w "/config" then "/config"
    else "".
Proof. intros Hm Hs. unfold findMountPoint. by rewrite Hm, Hs. Qed.

(** C7 (fails on the code). [findMountPoint] compares its argument with the
    first field of a mount-table line, the device name, and not with the
    third, the filesystem type.  On a device whose table lists configfs as
    [none /config configfs ...] the entry is missed and the fallback answers
    [/sys/kernel/config], where the entry of that type is mounted on
    [/config]; an [ext4] entry is not found at all. *)
Theorem findMountPoint_compares_device_field :
  findMountPoint (android "ci_hdrc.0" "") "configfs" = "/sys/kernel/config"
  /\ Spec.findMountPoint (android "ci_hdrc.0" "") "configfs" = "/config"
  /\ scanMounts "ext4" ["/dev/block/sda1 /data ext4 rw 0 0"] = None
  /\ Spec.scanMountsByType "ext4" ["/dev/block/sda1 /data ext4 rw 0 0"] = Some "/data".
Proof. repeat split. Qed.

(** ** Image validation *)



(** C9 (fails on the code). On a symbolic link that points at itself,
    [validateSafePath] calls itself on the same path again and again: no
    number of calls reaches a return, and neither [validateImage] nor the
    mount command that runs it returns. *)
Theorem validateSafePath_link_cycle (fuel : nat) :
  validateSafePath fuel (phone "ci_hdrc.0" "") "/sdcard/loop" = None
  /\ validateImage fuel (phone "ci_hdrc.0" "") "/sdcard/loop" = None
  /\ mountRunE noJSON fuel
       {| mountRO := false; mountRW := false; mountCDROM := false; mountForce := "";
          mountVerbose := false; mountDryRun := false; mountConfig := "" |}
       ["/sdcard/loop"] (phone "ci_hdrc.0" "") = None.
Proof.
  assert (H : validateSafePath fuel (phone "ci_hdrc.0" "") "/sdcard/loop" = None).
  { induction fuel as [|fuel IH]; [reflexivity|].
    change (validateSafePath (S fuel) (phone "ci_hdrc.0" "") "/sdcard/loop")
      with (validateSafePath fuel (phone "ci_hdrc.0" "") "/sdcard/loop").
    exact IH. }
  split; [exact H|].
  assert (H' : validateImage fuel (phone "ci_hdrc.0" "") "/sdcard/loop" = None).
  { unfold validateImage.
    change (Abs (phone "ci_hdrc.0" "") "/sdcard/loop") with "/sdcard/loop".
    by rewrite H. }
  split; [exact H'|].
  unfold mountRunE.
  change (mountRequest noJSON _ ["/sdcard/loop"] (phone "ci_hdrc.0" ""))
    with (Ok (E:=error) {| imagePath := "/sdcard/loop"; readWrite := true;
                           useCDROM := false; forceBackend := "" |}).
  cbn [useCDROM readWrite andb mountRO mountRW imagePath].
  by rewrite H'.
Qed.

(** ** The mount command *)

(** C10. On the command line (no configuration file) [readWrite] is true
    unless [--ro] is given, so an invocation with a file argument that
    passes [--cdrom] and not [--ro] is turned down by the check that
    CD-ROM and read-write exclude each other: the command returns that
    error with the world untouched, before the image is validated and
    before a backend is selected. *)
Theorem cdrom_flag_needs_ro (unmarshal : string -> result error Config) (fuel : nat)
    (fl : MountFlags) (file : string) (more : list string) (w : world) :
  mountConfig fl = "" ->
  mountRO fl = false ->
  mountCDROM fl = true ->
  (exists req, mountRequest unmarshal fl (file :: more) w = Ok req
               /\ readWrite req = true /\ useCDROM req = true)
  /\ mountRunE unmarshal fuel fl (file :: more) w
     = Some (Err (Errorf "cannot use -cdrom with -rw (CDROM devices are always read-only)"),
             w).
Proof.
  intros Hc Hro Hcd. unfold mountRunE, mountRequest. rewrite Hc, Hro, Hcd. simpl.
  split.
  - eexists. split; [reflexivity|]. simpl. by destruct (mountRW fl).
  - by destruct (mountRW fl).
Qed.

Lemma cdrom_flag_needs_ro_witness :
  (exists req, mountRequest noJSON cdromFlags ["/sdcard/x.iso"] (phone "ci_hdrc.0" "") = Ok req
               /\ readWrite req = true /\ useCDROM req = true)
  /\ mountRunE noJSON 1 cdromFlags ["/sdcard/x.iso"] (phone "ci_hdrc.0" "")
     = Some (Err (Errorf "cannot use -cdrom with -rw (CDROM devices are always read-only)"),
             phone "ci_hdrc.0" "").
Proof.
  apply (cdrom_flag_needs_ro noJSON 1 cdromFlags "/sdcard/x.iso" [] (phone "ci_hdrc.0" ""));
    reflexivity.
Defined.

(** *** Properties a command keeps, whatever its result *)

Lemma keeps_bind {A B} P (m : M A) (k : A -> M B) :
  keeps P m -> (forall a, keeps P (k a)) -> keeps P (bind m k).
Proof.
  intros Hm Hk w Hw. unfold bind. specialize (Hm w Hw).
  destruct (m w) as [[a|e] w1]; simpl in *; [by apply Hk|done].
Qed.

Lemma keeps_wrap {A} P ctx (m : M A) : keeps P m -> keeps P (wrap ctx m).
Proof.
  intros Hm w Hw. unfold wrap. specialize (Hm w Hw). by destruct (m w) as [[a|e] w1].
Qed.

Lemma keeps_try {A} P (f : world -> result error A) : keeps P (try f).
Proof. by intros w Hw. Qed.

Lemma keeps_ret {A} P (a : A) : keeps P (ret a).
Proof. by intros w Hw. Qed.

Lemma keeps_unless P cond m : keeps P m -> keeps P (unless cond m).
Proof. intros Hm w Hw. unfold unless. destruct (cond w); [done|by apply Hm]. Qed.

Lemma change_keeps w0 pu (d : view) op p f :
  (forall t t', f t (resolve w0 p) = Ok t' ->
                look t' (resolve w0 pu) = look t (resolve w0 pu)) ->
  keeps (holds w0 pu d) (change op p f).
Proof.
  intros Hf w [He Hat]. unfold change.
  rewrite (sameEnv_resolve _ _ _ He).
  destruct (f (root w) (resolve w0 p)) as [t'|e] eqn:E; [|done].
  split; [done|]. unfold at_ in *.
  change (look t' (resolve w pu) = d).
  rewrite (sameEnv_resolve _ _ pu He) in *. rewrite <- Hat. apply (Hf _ _ E).
Qed.

Lemma writeFile_keeps w0 pu (d : view) p c :
  ~ resolve w0 p `prefix_of` resolve w0 pu ->
  (forall x, resolve w0 p <> resolve w0 pu ++ [x]) ->
  keeps (holds w0 pu d) (writeFile p c).
Proof.
  intros H1 H2 w Hw. unfold writeFile, os_WriteFile.
  apply (change_keeps w0 pu d).
  - intros t t' Hu. by apply (updateAt_look_other _ _ _ _ _ Hu).
  - exact Hw.
Qed.

Lemma Symlink_keeps w0 pu (d : view) target p :
  ~ resolve w0 p `prefix_of` resolve w0 pu ->
  (forall x, resolve w0 p <> resolve w0 pu ++ [x]) ->
  keeps (holds w0 pu d) (os_Symlink target p).
Proof.
  intros H1 H2. apply change_keeps.
  intros t t' Hu. by apply (updateAt_look_other _ _ _ _ _ Hu).
Qed.

Lemma MkdirAll_keeps w0 pu (d : view) p :
  ~ resolve w0 pu `prefix_of` resolve w0 p ->
  keeps (holds w0 pu d) (os_MkdirAll p).
Proof.
  intros H1. apply change_keeps.
  intros t t' Hu. by apply (mkdirAll_look_other _ _ _ _ Hu).
Qed.

(** *** Paths of the gadget tree *)

Ltac nonempty :=
  first [ assumption | discriminate | apply Join_nonempty; nonempty ].

Ltac names :=
  repeat (apply Forall_cons_2; [first [reflexivity | assumption]|]); apply Forall_nil_2.

Ltac paths :=
  repeat (rewrite resolve_Join_names by first [nonempty | names]);
  rewrite <- ?app_assoc; simpl app.

Ltac paths_in H :=
  repeat (rewrite resolve_Join_names in H by first [nonempty | names]);
  rewrite <- ?app_assoc in H; simpl app in H.

Ltac no_prefix :=
  let H := fresh in
  intros H; apply prefix_app_inv in H; destruct H as [? H]; simplify_eq.

Ltac no_child :=
  let H := fresh in
  intros ? H; rewrite <- ?app_assoc in H; apply app_inv_head in H; simplify_eq.

Lemma activeGadget_inv w gd entries g :
  ConfigFS.activeGadget w gd entries = Some g ->
  exists e, e ∈ entries /\ g = filepath.Join [gd; e]
            /\ orEmpty (readFile w (filepath.Join [g; "UDC"])) <> "".
Proof.
  induction entries as [|n rest IH]; simpl; [done|].
  destruct (isDotfile n).
  - intros H. destruct (IH H) as (e & He & Hg). exists e. split; [by right|done].
  - destruct (decide (orEmpty _ = "")) as [Hz|Hnz].
    + intros H. destruct (IH H) as (e & He & Hg). exists e. split; [by right|done].
    + intros [= <-]. exists n. split; [by left|done].
Qed.

Lemma ReadDir_valid w p entries :
  os_ReadDir w p = Ok entries -> Forall (fun n => validName n = true) entries.
Proof.
  unfold os_ReadDir. destruct (at_ w p); try done. intros [= <-].
  apply Forall_forall. intros n Hn. by apply list_elem_of_filter in Hn as [? _].
Qed.

Lemma findGadgetRoot_inv w g :
  ConfigFS.findGadgetRoot w = Ok g ->
  let mp := findMountPoint w "configfs" in
  let gd := filepath.Join [mp; "usb_gadget"] in
  mp <> "" /\ dirExists w gd = true
  /\ exists entries e,
       os_ReadDir w gd = Ok entries /\ ConfigFS.activeGadget w gd entries = Some g
       /\ validName e = true /\ g = filepath.Join [gd; e]
       /\ orEmpty (readFile w (filepath.Join [g; "UDC"])) <> "".
Proof.
  intros H mp gd. unfold ConfigFS.findGadgetRoot in H. cbv zeta in H.
  fold mp in H. fold gd in H.
  destruct (decide (mp = "")) as [|Hmp]; [done|].
  destruct (dirExists w gd) eqn:Hd; [|done]. simpl in H.
  destruct (os_ReadDir w gd) as [entries|] eqn:Hr; [|done].
  destruct (ConfigFS.activeGadget w gd entries) as [g'|] eqn:Ha; [|done].
  injection H as ->. destruct (activeGadget_inv _ _ _ _ Ha) as (e & He & Hg & Hu).
  repeat split; try done. exists entries, e. repeat split; try done.
  apply ReadDir_valid in Hr. rewrite Forall_forall in Hr. by apply Hr.
Qed.

Lemma findGadgetRoot_nonempty w g : ConfigFS.findGadgetRoot w = Ok g -> g <> "".
Proof.
  intros H. destruct (findGadgetRoot_inv _ _ H) as (Hmp & _ & _ & e & _ & _ & _ & -> & _).
  nonempty.
Qed.

Lemma findConfigRoot_inv w g c :
  ConfigFS.findConfigRoot w g = Ok c ->
  exists name, validName name = true
               /\ c = filepath.Join [filepath.Join [g; "configs"]; name].
Proof.
  unfold ConfigFS.findConfigRoot.
  destruct (os_ReadDir w _) as [entries|] eqn:Hr; [|done].
  destruct (List.find _ entries) as [name|] eqn:Hf; [|done].
  intros [= <-]. exists name. split; [|done].
  apply ReadDir_valid in Hr. rewrite Forall_forall in Hr. apply Hr.
  apply list_elem_of_In. by apply find_some in Hf as [? _].
Qed.

(** The steps of [Mount] between disabling and re-enabling leave the
    [UDC] attribute as it is, whatever their result. *)
Lemma mountSteps_keeps w0 g c (d : view) imagePath opts :
  g <> "" ->
  (exists name, validName name = true
                /\ c = filepath.Join [filepath.Join [g; "configs"]; name]) ->
  keeps (holds w0 (filepath.Join [g; "UDC"]) d) (ConfigFS.mountSteps g c imagePath opts).
Proof.
  intros Hg (name & Hname & ->). unfold ConfigFS.mountSteps. cbv zeta.
  repeat (apply keeps_bind; [|intros _]);
    repeat first [apply keeps_wrap | apply keeps_unless | apply keeps_try].
  - apply MkdirAll_keeps. paths. no_prefix.
  - apply Symlink_keeps; paths; [no_prefix|no_child].
  - apply writeFile_keeps; paths; [no_prefix|no_child].
  - apply writeFile_keeps; paths; [no_prefix|no_child].
  - apply writeFile_keeps; paths; [no_prefix|no_child].
  - apply writeFile_keeps; paths; [no_prefix|no_child].
Qed.

Lemma unmountSteps_keeps w0 g (d : view) :
  g <> "" ->
  keeps (holds w0 (filepath.Join [g; "UDC"]) d) (ConfigFS.unmountSteps g).
Proof.
  intros Hg. unfold ConfigFS.unmountSteps. cbv zeta.
  repeat (apply keeps_bind; [|intros _]);
    repeat first [apply keeps_wrap | apply keeps_unless | apply keeps_try].
  apply writeFile_keeps; paths; [no_prefix|no_child].
Qed.

(** Re-enabling after steps that kept the attribute. *)
Lemma defer_reenable {A} w g udc d0 (steps : M A) w1 :
  udc <> "" -> TrimSpace udc = udc ->
  holds w (filepath.Join [g; "UDC"]) (VFile d0) w1 ->
  keeps (holds w (filepath.Join [g; "UDC"]) (VFile d0)) steps ->
  let w' := snd (defer (ConfigFS.reenableUDC g udc) steps w1) in
  fst (defer (ConfigFS.reenableUDC g udc) steps w1) = fst (steps w1)
  /\ sameEnv w w'
  /\ (exists rest, written w' = (filepath.Join [g; "UDC"], udc +:+ nl) :: rest)
  /\ at_ w' (filepath.Join [g; "UDC"]) = VFile (udc +:+ nl)
  /\ ConfigFS.getUDC w' g = Ok udc.
Proof.
  intros Hne Htrim Hw1 Hk. unfold defer. specialize (Hk w1 Hw1).
  destruct (steps w1) as [r w2]. simpl in *.
  unfold ConfigFS.reenableUDC. rewrite decide_False by done.
  unfold ConfigFS.setUDC. cbv zeta.
  destruct Hk as [He Hat].
  destruct (writeFile_ok _ udc _ _ Hat) as [w3 Hw3].
  rewrite Hw3. simpl.
  pose proof (writeFile_written (filepath.Join [g; "UDC"]) udc w2) as Hlog.
  rewrite Hw3 in Hlog. simpl in Hlog.
  pose proof (writeFile_at _ _ _ _ Hw3) as Hat3.
  apply writeFile_inv in Hw3 as [He3 _].
  repeat split; try (by destruct He, He3; congruence).
  - by eexists.
  - unfold ConfigFS.getUDC. cbv zeta. rewrite (readFile_at _ _ _ Hat3).
    by rewrite TrimSpace_app_nl, Htrim.
Qed.

Lemma Mount_run w g c udc imagePath opts :
  ConfigFS.findGadgetRoot w = Ok g -> ConfigFS.findConfigRoot w g = Ok c ->
  ConfigFS.getUDC w g = Ok udc ->
  ConfigFS.Mount imagePath opts w =
    match ConfigFS.setUDC g "" w with
    | (Ok _, w1) =>
        defer (ConfigFS.reenableUDC g udc) (ConfigFS.mountSteps g c imagePath opts) w1
    | (Err e, w1) => (Err (Wrapf "disable UDC" e), w1)
    end.
Proof.
  intros Hg Hc Hu. unfold ConfigFS.Mount, bind, wrap, try.
  rewrite Hg, Hc, Hu. by destruct (ConfigFS.setUDC g "" w) as [[[]|e] w1].
Qed.

Lemma Unmount_run w g udc :
  ConfigFS.findGadgetRoot w = Ok g -> ConfigFS.getUDC w g = Ok udc ->
  ConfigFS.Unmount w =
    match ConfigFS.setUDC g "" w with
    | (Ok _, w1) => defer (ConfigFS.reenableUDC g udc) (ConfigFS.unmountSteps g) w1
    | (Err e, w1) => (Err (Wrapf "disable UDC" e), w1)
    end.
Proof.
  intros Hg Hu. unfold ConfigFS.Unmount, bind, wrap, try.
  rewrite Hg, Hu. by destruct (ConfigFS.setUDC g "" w) as [[[]|e] w1].
Qed.

Lemma getUDC_trimmed w g udc : ConfigFS.getUDC w g = Ok udc -> TrimSpace udc = udc.
Proof.
  unfold ConfigFS.getUDC. cbv zeta. intros H.
  apply readFile_inv in H as (d & _ & ->). apply TrimSpace_idem.
Qed.

Lemma setUDC_holds w g udc w1 :
  ConfigFS.setUDC g udc w = (Ok tt, w1) ->
  holds w (filepath.Join [g; "UDC"]) (VFile (udc +:+ nl)) w1.
Proof.
  unfold ConfigFS.setUDC. cbv zeta. intros H. split.
  - by apply writeFile_inv in H as [? _].
  - by apply writeFile_at in H.
Qed.

(** C1. When the [UDC] attribute of the gadget holds a controller name and
    the write that disables the gadget succeeds, then however the steps
    that follow end, the last write [Mount] makes before it returns puts
    that name back into the attribute, which then reads as before; the
    same holds for [Unmount]. *)
Theorem UDC_written_back (w : world) (g udc : string) :
  ConfigFS.findGadgetRoot w = Ok g ->
  ConfigFS.getUDC w g = Ok udc -> udc <> "" ->
  fst (ConfigFS.setUDC g "" w) = Ok tt ->
  (forall imagePath opts c, ConfigFS.findConfigRoot w g = Ok c ->
     let w' := snd (ConfigFS.Mount imagePath opts w) in
     (exists rest, written w' = (filepath.Join [g; "UDC"], udc +:+ nl) :: rest)
     /\ ConfigFS.getUDC w' g = Ok udc)
  /\ (let w' := snd (ConfigFS.Unmount w) in
      (exists rest, written w' = (filepath.Join [g; "UDC"], udc +:+ nl) :: rest)
      /\ ConfigFS.getUDC w' g = Ok udc).
Proof.
  intros Hg Hu Hne Hdis.
  pose proof (findGadgetRoot_nonempty _ _ Hg) as Hgne.
  pose proof (getUDC_trimmed _ _ _ Hu) as Htrim.
  destruct (ConfigFS.setUDC g "" w) as [[[]|e] w1] eqn:Hset; [|done].
  pose proof (setUDC_holds _ _ _ _ Hset) as Hw1.
  split.
  - intros imagePath opts c Hc w'. subst w'.
    rewrite (Mount_run _ _ _ _ _ _ Hg Hc Hu), Hset.
    destruct (defer_reenable w g udc _ (ConfigFS.mountSteps g c imagePath opts) w1
                Hne Htrim Hw1) as (_ & _ & Hlog & _ & Hget); [|done].
    apply mountSteps_keeps; [done|]. by apply findConfigRoot_inv in Hc.
  - intros w'. subst w'. rewrite (Unmount_run _ _ _ Hg Hu), Hset.
    destruct (defer_reenable w g udc _ (ConfigFS.unmountSteps g) w1
                Hne Htrim Hw1) as (_ & _ & Hlog & _ & Hget); [|done].
    by apply unmountSteps_keeps.
Qed.

Lemma UDC_written_back_witness :
  (exists e, fst (ConfigFS.Mount "/sdcard/x.iso" rwOpts broken) = Err e)
  /\ (exists rest, written (snd (ConfigFS.Mount "/sdcard/x.iso" rwOpts broken))
                   = ("/config/usb_gadget/g1/UDC", "ci_hdrc.0" +:+ nl) :: rest)
  /\ ConfigFS.getUDC (snd (ConfigFS.Mount "/sdcard/x.iso" rwOpts broken))
       "/config/usb_gadget/g1" = Ok "ci_hdrc.0".
Proof.
  split; [eexists; vm_compute; reflexivity|].
  refine (proj1 (UDC_written_back broken "/config/usb_gadget/g1" "ci_hdrc.0" _ _ _ _)
            "/sdcard/x.iso" rwOpts "/config/usb_gadget/g1/configs/b.1" _);
    first [discriminate | vm_compute; reflexivity].
Defined.

(** *** Sysfs *)

Lemma resolve_sysfsEnable w :
  resolve w Sysfs.sysfsEnable
  = ["sys"; "devices"; "virtual"; "android_usb"; "android0"; "enable"].
Proof. reflexivity. Qed.

Lemma resolve_sysfsFile w :
  resolve w Sysfs.sysfsFile
  = ["sys"; "devices"; "virtual"; "android_usb"; "android0"; "f_mass_storage"; "lun"; "file"].
Proof. reflexivity. Qed.

Lemma resolve_sysfsFeatures w :
  resolve w Sysfs.sysfsFeatures
  = ["sys"; "devices"; "virtual"; "android_usb"; "android0"; "functions"].
Proof. reflexivity. Qed.

Ltac sysfs_paths :=
  rewrite ?resolve_sysfsEnable, ?resolve_sysfsFile, ?resolve_sysfsFeatures.

Ltac apart :=
  sysfs_paths;
  first [ by (let H := fresh in intros [? H]; simplify_eq)
        | by (let H := fresh in intros ? H; simplify_eq) ].

Lemma holds_step {A} w0 pu (d : view) (m : M A) w r w1 :
  keeps (holds w0 pu d) m -> holds w0 pu d w -> m w = (r, w1) -> holds w0 pu d w1.
Proof. intros Hk Hw Hm. specialize (Hk w Hw). by rewrite Hm in Hk. Qed.

Ltac over H Hstep side :=
  match type of Hstep with
  | ?m ?w = _ => eapply (holds_step _ _ _ m w) in H; [|side|exact Hstep]
  end.

Lemma holds_here w pu (d : view) : at_ w pu = d -> holds w pu d w.
Proof. by split. Qed.

Lemma holds_at w0 pu (d : view) w : holds w0 pu d w -> at_ w pu = d.
Proof. by intros [_ ?]. Qed.





(** *** UDC *)














(** *** ConfigFS: changes below the gadget *)

Lemma below_refl G w : below G w w.
Proof. split; [apply sameEnv_refl|apply outside_refl]. Qed.

Lemma below_trans G w1 w2 w3 : below G w1 w2 -> below G w2 w3 -> below G w1 w3.
Proof.
  intros [E1 O1] [E2 O2]. split; [by eapply sameEnv_trans|by eapply outside_trans].
Qed.

Lemma below_at G w w' p :
  below G w w' -> ~ G `prefix_of` resolve w p -> at_ w' p = at_ w p.
Proof.
  intros [He Ho] Hp. unfold at_. rewrite (sameEnv_resolve _ _ _ He). by apply Ho.
Qed.

Lemma writeFile_below G p c w w1 :
  writeFile p c w = (Ok tt, w1) ->
  G `prefix_of` resolve w p -> G <> resolve w p -> below G w w1.
Proof.
  intros H Hp Hne. apply writeFile_inv in H as [He Hu]. split; [done|].
  by apply (updateAt_outside _ _ _ _ _ Hu).
Qed.

Lemma Symlink_below G target p w w1 :
  os_Symlink target p w = (Ok tt, w1) ->
  G `prefix_of` resolve w p -> G <> resolve w p -> below G w w1.
Proof.
  intros H Hp Hne. apply change_inv in H as (He & _ & Hu). split; [done|].
  by apply (updateAt_outside _ _ _ _ _ Hu).
Qed.

Lemma MkdirAll_below G p w w1 :
  os_MkdirAll p w = (Ok tt, w1) ->
  G `prefix_of` resolve w p -> is_Some (lookup (root w) G) -> below G w w1.
Proof.
  intros H Hp Hs. apply change_inv in H as (He & _ & Hu). split; [done|].
  by apply (mkdirAll_outside _ _ _ _ Hu).
Qed.

Lemma MkdirAll_dir p w w1 :
  os_MkdirAll p w = (Ok tt, w1) -> dirExists w1 p = true.
Proof.
  intros H. apply change_inv in H as (He & _ & Hu).
  apply mkdirAll_dir in Hu as [es Hes].
  unfold dirExists, os_Stat, at_, look. by rewrite (sameEnv_resolve _ _ _ He), Hes.
Qed.

Lemma dirExists_at w p : dirExists w p = true <-> exists names, at_ w p = VDir names.
Proof.
  unfold dirExists, os_Stat. destruct (at_ w p); simpl; split; try done;
    try (by intros [? ?]). by eexists.
Qed.

Lemma exists_above t G k : is_Some (lookup t (G ++ k)) -> is_Some (lookup t G).
Proof. rewrite lookup_path_app. destruct (lookup t G); [by eexists|by intros [? ?]]. Qed.

(** *** Finding the gadget again *)

Lemma usb_gadget_not_prefix (pre : list string) (e : string) (l : list string) :
  "usb_gadget" ∉ l -> ~ (pre ++ ["usb_gadget"; e]) `prefix_of` l.
Proof.
  intros Hn [k ->]. apply Hn. rewrite <- app_assoc. apply elem_of_app. right. by left.
Qed.

Ltac not_in :=
  let H := fresh in
  intros H; repeat (apply elem_of_cons in H as [H|H]; [discriminate H|]);
  by apply elem_of_nil in H.

Lemma findMountPoint_below w w' pre e :
  below (pre ++ ["usb_gadget"; e]) w w' ->
  findMountPoint w' "configfs" = findMountPoint w "configfs".
Proof.
  intros Hb. unfold findMountPoint. pose proof Hb as [[Hm Hc] Ho]. rewrite Hm.
  destruct (mounts w) as [text|]; [|done].
  destruct (scanMounts "configfs" (scanLines text)); [done|].
  rewrite decide_True by done.
  assert (Hd : forall p l, resolve w p = l -> "usb_gadget" ∉ l ->
                           dirExists w' p = dirExists w p).
  { intros p l Hl Hn. unfold dirExists, os_Stat.
    rewrite (below_at (pre ++ ["usb_gadget"; e]) w w'); [done|done|].
    rewrite Hl. by apply usb_gadget_not_prefix. }
  rewrite (Hd "/sys/kernel/config" ["sys"; "kernel"; "config"]), (Hd "/config" ["config"]);
    try done; not_in.
Qed.

Lemma activeGadget_below w w' gd entries g e :
  gd <> "" -> validName e = true -> g = filepath.Join [gd; e] ->
  below (resolve w g) w w' ->
  Forall (fun n => validName n = true) entries ->
  orEmpty (readFile w (filepath.Join [g; "UDC"])) <> "" ->
  orEmpty (readFile w' (filepath.Join [g; "UDC"])) <> "" ->
  ConfigFS.activeGadget w gd entries = Some g ->
  ConfigFS.activeGadget w' gd entries = Some g.
Proof.
  intros Hgd He -> Hb Hvalid Hu Hu'. induction Hvalid as [|n rest Hn _ IH]; simpl; [done|].
  destruct (isDotfile n); [done|].
  destruct (decide (n = e)) as [->|Hne].
  - rewrite (decide_False (P := orEmpty (readFile w _) = "")) by done.
    by rewrite (decide_False (P := orEmpty (readFile w' _) = "")) by done.
  - assert (Hsame : readFile w' (filepath.Join [filepath.Join [gd; n]; "UDC"])
                    = readFile w (filepath.Join [filepath.Join [gd; n]; "UDC"])).
    { unfold readFile, os_ReadFile. rewrite (below_at _ _ _ _ Hb); [done|].
      paths. intros Hp. apply prefix_app_inv in Hp as [k Hk]. by simplify_eq/=. }
    rewrite Hsame.
    destruct (decide (orEmpty _ = "")); [done|].
    intros [= Heq]. apply (f_equal (resolve w)) in Heq. paths_in Heq.
    apply app_inv_head in Heq. by simplify_eq.
Qed.

(** The gadget found in [w] is found again after changes below it that
    leave its [UDC] attribute non-empty. *)
Lemma findGadgetRoot_below w w' g :
  ConfigFS.findGadgetRoot w = Ok g ->
  below (resolve w g) w w' ->
  orEmpty (readFile w' (filepath.Join [g; "UDC"])) <> "" ->
  ConfigFS.findGadgetRoot w' = Ok g.
Proof.
  intros Hg Hb Hu'.
  destruct (findGadgetRoot_inv _ _ Hg) as (Hmp & Hd & entries & e & Hr & Ha & He & Heq & Hu).
  set (mp := findMountPoint w "configfs") in *.
  set (gd := filepath.Join [mp; "usb_gadget"]) in *.
  assert (HG : resolve w g = resolve w mp ++ ["usb_gadget"; e]).
  { rewrite Heq. unfold gd. by paths. }
  unfold ConfigFS.findGadgetRoot. cbv zeta.
  rewrite HG in Hb. rewrite (findMountPoint_below _ _ _ _ Hb). fold mp. fold gd.
  rewrite decide_False by done.
  assert (Hat : at_ w' gd = at_ w gd).
  { apply (below_at _ _ _ _ Hb). unfold gd. paths.
    intros Hp. apply prefix_app_inv in Hp as [k Hk]. by simplify_eq/=. }
  unfold dirExists, os_Stat, os_ReadDir in *. rewrite Hat.
  destruct (at_ w gd) as [|d|names|s] eqn:E; try done. simpl.
  injection Hr as <-.
  rewrite <- HG in Hb.
  rewrite (activeGadget_below w w' gd _ g e); try done.
  - unfold gd. nonempty.
  - apply Forall_forall. intros n Hn. by apply list_elem_of_filter in Hn as [? _].
Qed.

(** *** Mount and Unmount, when they succeed *)

Lemma at_resolve w p p' : resolve w p = resolve w p' -> at_ w p = at_ w p'.
Proof. unfold at_. by intros ->. Qed.

Ltac rebase He :=
  match type of He with
  | sameEnv ?w0 ?w => repeat (rewrite (sameEnv_resolve w0 w) by exact He)
  end.

Ltac over_write H Hstep He :=
  over H Hstep ltac:(apply writeFile_keeps; unfold lunFileOf, msRoot; rebase He; paths;
                     [no_prefix|no_child]).

Lemma verifyMount_inv w lunFile p :
  verifyMount w lunFile p = Ok tt -> readFile w lunFile = Ok p.
Proof.
  unfold verifyMount. destruct (readFile w lunFile) as [m|]; [|done].
  by destruct (decide (m = p)) as [->|].
Qed.

Lemma verifyUnmount_inv w lunFile :
  verifyUnmount w lunFile = Ok tt -> readFile w lunFile = Ok "".
Proof.
  unfold verifyUnmount. destruct (readFile w lunFile) as [m|]; [|done].
  by destruct (decide (m = "")) as [->|].
Qed.

Lemma mountSteps_inv w1 g c p opts w2 :
  g <> "" ->
  (exists name, validName name = true
                /\ c = filepath.Join [filepath.Join [g; "configs"]; name]) ->
  is_Some (lookup (root w1) (resolve w1 g)) ->
  ConfigFS.mountSteps g c p opts w1 = (Ok tt, w2) ->
  below (resolve w1 g) w1 w2
  /\ (exists names, at_ w2 (msRoot g) = VDir names)
  /\ at_ w2 (lunFileOf g) = VFile (p +:+ nl)
  /\ TrimSpace p = p.
Proof.
  intros Hg (name & Hname & ->) HG H. unfold ConfigFS.mountSteps in H. cbv zeta in H.
  fold (msRoot g) in H. fold (lunFileOf g) in H.
  apply bind_inv in H as ([] & wa & Ha & H).
  apply bind_inv in H as ([] & wb & Hb & H).
  apply bind_inv in H as ([] & wc & Hc & H). apply wrap_inv in Hc.
  apply bind_inv in H as ([] & wd & Hd & H). apply wrap_inv in Hd.
  apply bind_inv in H as ([] & we & He & H). apply wrap_inv in He.
  apply bind_inv in H as ([] & wf & Hf & H). apply wrap_inv in Hf.
  apply wrap_inv, try_inv in H as [Hv ->]. apply verifyMount_inv in Hv.
  (* the function directory *)
  assert (Hba : below (resolve w1 g) w1 wa /\ exists names, at_ wa (msRoot g) = VDir names).
  { apply unless_inv in Ha as [[Hex ->]|[_ Ha]].
    - split; [apply below_refl|by apply dirExists_at].
    - apply wrap_inv in Ha. split.
      + apply (MkdirAll_below _ _ _ _ Ha); [|done]. unfold msRoot. paths.
        by apply prefix_app_r.
      + apply dirExists_at. by apply MkdirAll_dir in Ha. }
  destruct Hba as [Hba [names HM]]. pose proof Hba as [Hea _].
  pose proof (holds_here _ _ _ HM) as HMs.
  (* the link *)
  assert (Hbb : below (resolve w1 g) wa wb /\ holds wa (msRoot g) (VDir names) wb).
  { apply unless_inv in Hb as [[Hex ->]|[_ Hb]].
    - split; [apply below_refl|done].
    - apply wrap_inv in Hb. split.
      + apply (Symlink_below _ _ _ _ _ Hb); rebase Hea; paths.
        * by apply prefix_app_r.
        * intros Heq. apply (f_equal length) in Heq. rewrite length_app in Heq.
          simpl in Heq. lia.
      + over HMs Hb ltac:(apply Symlink_keeps; unfold msRoot; rebase Hea; paths;
                          [no_prefix|no_child]).
        exact HMs. }
  destruct Hbb as [Hbb HMb]. pose proof (below_trans _ _ _ _ Hba Hbb) as Hb1.
  clear HMs. pose proof Hb1 as [Heb _].
  assert (Hstep : forall wx wy lf cc, sameEnv w1 wx ->
            writeFile (filepath.Join [filepath.Join [msRoot g; "lun.0"]; lf]) cc wx
              = (Ok tt, wy) -> validName lf = true ->
            below (resolve w1 g) wx wy).
  { intros wx wy lf cc Hex Hw Hlf. apply (writeFile_below _ _ _ _ _ Hw);
      unfold msRoot; rebase Hex; paths.
    - by apply prefix_app_r.
    - intros Heq. apply (f_equal length) in Heq. rewrite length_app in Heq.
      simpl in Heq. lia. }
  pose proof (Hstep _ _ _ _ Heb Hc eq_refl) as Hbc.
  pose proof (below_trans _ _ _ _ Hb1 Hbc) as Hb2. pose proof Hb2 as [Hec _].
  pose proof (Hstep _ _ _ _ Hec Hd eq_refl) as Hbd.
  pose proof (below_trans _ _ _ _ Hb2 Hbd) as Hb3. pose proof Hb3 as [Hed _].
  pose proof (Hstep _ _ _ _ Hed He eq_refl) as Hbe.
  pose proof (below_trans _ _ _ _ Hb3 Hbe) as Hb4. pose proof Hb4 as [Hee _].
  pose proof (Hstep _ _ _ _ Hee Hf eq_refl) as Hbf.
  pose proof (below_trans _ _ _ _ Hb4 Hbf) as Hb5.
  split; [exact Hb5|].
  pose proof Hbb as [Heab _].
  assert (Hew : forall wx, sameEnv w1 wx -> sameEnv wa wx).
  { intros wx [? ?]. destruct Hea. split; congruence. }
  over_write HMb Hc Hea.
  over_write HMb Hd Hea.
  over_write HMb He Hea.
  over_write HMb Hf Hea.
  split; [exists names; by apply holds_at in HMb|].
  pose proof (writeFile_at _ _ _ _ Hf) as HL. split; [done|].
  rewrite (readFile_at _ _ _ HL), TrimSpace_app_nl in Hv. by injection Hv.
Qed.

(** Disabling, some steps below the gadget, and re-enabling. *)
Lemma gadget_cycle {A} w g udc (steps : M A) w1 w2 r (v : view) pv :
  ConfigFS.findGadgetRoot w = Ok g -> ConfigFS.getUDC w g = Ok udc ->
  ConfigFS.setUDC g "" w = (Ok tt, w1) ->
  keeps (holds w (filepath.Join [g; "UDC"]) (VFile ("" +:+ nl))) steps ->
  steps w1 = (r, w2) -> below (resolve w g) w1 w2 ->
  at_ w2 pv = v ->
  ~ resolve w (filepath.Join [g; "UDC"]) `prefix_of` resolve w pv ->
  (forall x, resolve w (filepath.Join [g; "UDC"]) <> resolve w pv ++ [x]) ->
  let w' := snd (ConfigFS.reenableUDC g udc w2) in
  ConfigFS.findGadgetRoot w' = Ok g
  /\ (udc <> "" /\ TrimSpace udc = udc
      /\ at_ w' (filepath.Join [g; "UDC"]) = VFile (udc +:+ nl))
  /\ at_ w' pv = v.
Proof.
  intros Hg Hu Hset Hk Hsteps Hb12 Hv Hp1 Hp2 w'.
  pose proof (findGadgetRoot_nonempty _ _ Hg) as Hgne.
  pose proof (getUDC_trimmed _ _ _ Hu) as Htrim.
  assert (Hne : udc <> "").
  { destruct (findGadgetRoot_inv _ _ Hg) as (_ & _ & _ & _ & _ & _ & _ & _ & Hor).
    unfold ConfigFS.getUDC in Hu. cbv zeta in Hu. by rewrite Hu in Hor. }
  pose proof (setUDC_holds _ _ _ _ Hset) as Hw1.
  assert (Hb01 : below (resolve w g) w w1).
  { unfold ConfigFS.setUDC in Hset. cbv zeta in Hset.
    apply (writeFile_below _ _ _ _ _ Hset); paths; [by apply prefix_app_r|].
    intros Heq. apply (f_equal length) in Heq. rewrite length_app in Heq. simpl in Heq. lia. }
  pose proof (holds_step _ _ _ _ _ _ _ Hk Hw1 Hsteps) as Hw2.
  destruct Hw2 as [He2 Hat2].
  subst w'. unfold ConfigFS.reenableUDC. rewrite decide_False by done.
  unfold ConfigFS.setUDC. cbv zeta.
  destruct (writeFile_ok _ udc _ _ Hat2) as [w3 Hw3]. rewrite Hw3. simpl.
  pose proof (writeFile_at _ _ _ _ Hw3) as Hat3.
  assert (Hb23 : below (resolve w g) w2 w3).
  { apply (writeFile_below _ _ _ _ _ Hw3); rebase He2; paths; [by apply prefix_app_r|].
    intros Heq. apply (f_equal length) in Heq. rewrite length_app in Heq. simpl in Heq. lia. }
  assert (Hv3 : holds w2 pv v w3).
  { pose proof (holds_here _ _ _ Hv) as Hh.
    over Hh Hw3 ltac:(apply writeFile_keeps; rebase He2; done). exact Hh. }
  repeat split; try done.
  - apply (findGadgetRoot_below w w3 g Hg).
    + eapply below_trans; [exact Hb01|]. eapply below_trans; [exact Hb12|exact Hb23].
    + rewrite (readFile_at _ _ _ Hat3). simpl. by rewrite TrimSpace_app_nl, Htrim.
  - by apply holds_at in Hv3.
Qed.

Lemma exists_at w p d : at_ w p = VFile d -> is_Some (lookup (root w) (resolve w p)).
Proof. unfold at_, look. destruct (lookup _ _); [by eexists|done]. Qed.

Lemma ConfigFS_Mount_inv w p opts w' :
  ConfigFS.Mount p opts w = (Ok tt, w') ->
  exists g,
    gadgetReady w' g (p +:+ nl) /\ TrimSpace p = p
    /\ exists names, at_ w' (msRoot g) = VDir names.
Proof.
  intros H. unfold ConfigFS.Mount in H.
  apply bind_inv in H as (g & w0 & Hg & H). apply wrap_inv, try_inv in Hg as [Hg ->].
  apply bind_inv in H as (c & w0 & Hc & H). apply wrap_inv, try_inv in Hc as [Hc ->].
  apply bind_inv in H as (udc & w0 & Hu & H). apply wrap_inv, try_inv in Hu as [Hu ->].
  apply bind_inv in H as ([] & w1 & Hset & H). apply wrap_inv in Hset.
  apply defer_inv in H as (w2 & Hsteps & ->).
  pose proof (findGadgetRoot_nonempty _ _ Hg) as Hgne.
  pose proof (findConfigRoot_inv _ _ _ Hc) as Hcf.
  pose proof (setUDC_holds _ _ _ _ Hset) as [He1 Hat1].
  assert (HG : is_Some (lookup (root w1) (resolve w1 g))).
  { apply exists_at in Hat1. revert Hat1. paths. apply exists_above. }
  destruct (mountSteps_inv _ _ _ _ _ _ Hgne Hcf HG Hsteps) as (Hb & [names HM] & HL & Htrim).
  rewrite (sameEnv_resolve _ _ _ He1) in Hb.
  pose proof (mountSteps_keeps w g c (VFile ("" +:+ nl)) p opts Hgne Hcf) as Hk.
  exists g. split; [|split; [done|]].
  - destruct (gadget_cycle w g udc _ w1 w2 _ _ (lunFileOf g) Hg Hu Hset Hk Hsteps Hb HL)
      as (Hg' & Hudc & HL').
    + unfold lunFileOf, msRoot. paths. no_prefix.
    + unfold lunFileOf, msRoot. paths. no_child.
    + split; [done|]. split; [by exists udc|done].
  - destruct (gadget_cycle w g udc _ w1 w2 _ _ (msRoot g) Hg Hu Hset Hk Hsteps Hb HM)
      as (_ & _ & HM').
    + unfold msRoot. paths. no_prefix.
    + unfold msRoot. paths. no_child.
    + by exists names.
Qed.







(** ** Mount, Status and Unmount of the three backends *)







(** ** ConfigFS: when no gadget is active *)

(** *** A change below a directory is a change of its subtree *)


Lemma mkdirAll_graft t G k s s' :
  lookup t G = Some s -> mkdirAll s k = Ok s' ->
  exists t', mkdirAll t (G ++ k) = Ok t' /\ lookup t' G = Some s'.
Proof.
  revert t. induction G as [|c G IH]; intros t Hl Hu; simpl in Hl.
  - injection Hl as ->. by exists s'.
  - destruct t as [|es|]; try done. destruct (assoc c es) as [tc|] eqn:E; [|done].
    destruct (IH _ Hl Hu) as (tc' & H1 & H2). exists (Dir (put c tc' es)).
    simpl. rewrite E. simpl. rewrite H1. split; [done|]. by rewrite assoc_put_eq.
Qed.



Lemma MkdirAll_graft w G k p s s' :
  lookup (root w) G = Some s -> resolve w p = G ++ k -> mkdirAll s k = Ok s' ->
  exists w', os_MkdirAll p w = (Ok tt, w')
             /\ lookup (root w') G = Some s' /\ below G w w'.
Proof.
  intros Hl Hp Hu. destruct (mkdirAll_graft _ _ _ _ _ Hl Hu) as (t' & Ht & Hl').
  assert (Hrun : os_MkdirAll p w = (Ok tt, setRoot t' w)).
  { unfold os_MkdirAll, change. by rewrite Hp, Ht. }
  eexists. split; [exact Hrun|]. split; [done|].
  eapply MkdirAll_below; [exact Hrun| |by rewrite Hl].
  rewrite Hp. by apply prefix_app_r.
Qed.

(** *** Paths with more than one element in a component *)






(** *** The steps of [createGadget], one after the other *)






(** *** Mount when no gadget is active *)







(** ** Further properties of utils.go, config.go and the selector *)

(** X1. What [writeFile] writes, [readFile] reads back: without the newline,
    and without the white space the content has at its ends, that is the
    runes [unicode.IsSpace] accepts. *)
Theorem writeFile_then_readFile (path content : string) (w w' : world) :
  writeFile path content w = (Ok tt, w') ->
  readFile w' path = Ok (TrimSpace content)
  /\ (TrimSpace content = content -> readFile w' path = Ok content).
Proof.
  intros H. apply writeFile_at in H.
  assert (Hr : readFile w' path = Ok (TrimSpace content))
    by (by rewrite (readFile_at _ _ _ H), TrimSpace_app_nl).
  split; [done|]. intros Ht. by rewrite Hr, Ht.
Qed.

Lemma writeFile_then_readFile_witness :
  readFile (snd (writeFile "/sdcard/note" (" a b" +:+ utf8 0xA0) (phone "" ""))) "/sdcard/note"
  = Ok "a b".
Proof.
  refine (proj1 (writeFile_then_readFile "/sdcard/note" (" a b" +:+ utf8 0xA0) (phone "" "")
                   (snd (writeFile "/sdcard/note" (" a b" +:+ utf8 0xA0) (phone "" ""))) _)).
  vm_compute. reflexivity.
Defined.

(** *** loadConfig *)

Lemma IsAbs_Getwd w : filepath.IsAbs (Getwd w) = true.
Proof. unfold Getwd. by rewrite IsAbs_app. Qed.

Lemma IsAbs_Clean p : p <> "" -> filepath.IsAbs (filepath.Clean p) = filepath.IsAbs p.
Proof. intros Hp. by destruct (Clean_elems p Hp) as (_ & H & _). Qed.

Lemma IsAbs_Abs w p : filepath.IsAbs (Abs w p) = true.
Proof.
  unfold Abs. destruct (filepath.IsAbs p) eqn:E.
  - rewrite IsAbs_Clean; [done|]. by intros ->.
  - assert (Hg : Getwd w <> "") by (intros Hg; pose proof (IsAbs_Getwd w) as Ha; by rewrite Hg in Ha).
    rewrite Join_cons, IsAbs_Clean by (done || by apply JoinWith_cons_nonempty).
    rewrite IsAbs_JoinWith by done. apply IsAbs_Getwd.
Qed.

Lemma one_of_four (s a b c d : string) :
  negb (bool_decide (s = a)) && negb (bool_decide (s = b))
  && negb (bool_decide (s = c)) && negb (bool_decide (s = d)) = false ->
  s ∈ [a; b; c; d].
Proof.
  destruct (decide (s = a)) as [->|]; [set_solver|].
  destruct (decide (s = b)) as [->|]; [set_solver|].
  destruct (decide (s = c)) as [->|]; [set_solver|].
  destruct (decide (s = d)) as [->|]; [set_solver|].
  by rewrite !bool_decide_eq_false_2.
Qed.

Lemma loadConfig_inv (unmarshal : string -> result error Config) (w : world)
    (path : string) (cfg : Config) :
  loadConfig unmarshal w path = Ok cfg ->
  filepath.IsAbs (cfgFile cfg) = true
  /\ cfgMode cfg ∈ [""; "ro"; "rw"; "cdrom"]
  /\ cfgBackend cfg ∈ [""; "configfs"; "sysfs"; "legacy"]
  /\ exists data raw,
       Namei.os_ReadFile w path = Ok data /\ unmarshal data = Ok raw
       /\ cfgMode cfg = cfgMode raw /\ cfgBackend cfg = cfgBackend raw
       /\ cfgFile cfg = (if filepath.IsAbs (cfgFile raw) then cfgFile raw
                         else Abs w (cfgFile raw)).
Proof.
  unfold loadConfig. destruct (Namei.os_ReadFile w path) as [data|]; [|done].
  destruct (unmarshal data) as [raw|] eqn:Hu; [|done].
  destruct (decide (cfgFile raw = "")); [done|].
  cbv zeta.
  destruct (negb (bool_decide (cfgMode raw = "")) && _ && _ && _) eqn:Hm; [done|].
  destruct (negb (bool_decide (cfgBackend raw = "")) && _ && _ && _) eqn:Hb; [done|].
  intros [= <-]. simpl.
  split; [destruct (filepath.IsAbs (cfgFile raw)) eqn:E; simpl; [done|apply IsAbs_Abs]|].
  split; [by apply one_of_four|]. split; [by apply one_of_four|].
  exists data, raw. by destruct (filepath.IsAbs (cfgFile raw)).
Qed.

(** X4. A configuration that [loadConfig] returns names its file by an
    absolute path, kept as written when it was absolute already, and holds
    a mode and a backend name that are empty or among those the error
    messages list. *)
Theorem loadConfig_valid (unmarshal : string -> result error Config) (w : world)
    (path : string) (cfg : Config) :
  loadConfig unmarshal w path = Ok cfg ->
  filepath.IsAbs (cfgFile cfg) = true
  /\ cfgMode cfg ∈ [""; "ro"; "rw"; "cdrom"]
  /\ cfgBackend cfg ∈ [""; "configfs"; "sysfs"; "legacy"]
  /\ exists data raw,
       Namei.os_ReadFile w path = Ok data /\ unmarshal data = Ok raw
       /\ cfgMode cfg = cfgMode raw /\ cfgBackend cfg = cfgBackend raw
       /\ cfgFile cfg = (if filepath.IsAbs (cfgFile raw) then cfgFile raw
                         else Abs w (cfgFile raw)).
Proof. apply loadConfig_inv. Qed.

Lemma loadConfig_valid_witness :
  loadConfig cdromConfig (phone "" "") "/sdcard/x.iso"
  = Ok {| cfgFile := "/sdcard/x.iso"; cfgMode := "cdrom"; cfgBackend := "sysfs" |}
  /\ filepath.IsAbs "/sdcard/x.iso" = true.
Proof.
  assert (H : loadConfig cdromConfig (phone "" "") "/sdcard/x.iso"
              = Ok {| cfgFile := "/sdcard/x.iso"; cfgMode := "cdrom"; cfgBackend := "sysfs" |})
    by (vm_compute; reflexivity).
  split; [exact H|]. exact (proj1 (loadConfig_valid _ _ _ _ H)).
Defined.

(** *** selectBackend *)

Lemma forcedBackend_ok w force bs b :
  forcedBackend w force bs = Ok b -> b ∈ bs /\ Name b = force /\ Supported b w = true.
Proof.
  induction bs as [|b0 rest IH]; simpl; [done|].
  destruct (decide (Name b0 = force)) as [Hn|Hn].
  - destruct (Supported b0 w) eqn:Hs; [|done]. intros [= <-].
    split; [apply list_elem_of_here|done].
  - intros H. destruct (IH H) as (Hin & Hrest). split; [by apply list_elem_of_further|done].
Qed.

(** X5. The backend [selectBackend] returns is one of the three candidates and
    reports itself supported; when a name is forced it carries that name,
    and otherwise no candidate before it is supported. *)
Theorem selectBackend_sound (w : world) (force : string) (b : Backend) :
  selectBackend w force = Ok b ->
  b ∈ backends /\ Supported b w = true
  /\ (force <> "" -> Name b = force)
  /\ (force = "" ->
      exists pre post, backends = pre ++ b :: post
                       /\ Forall (fun b' => Supported b' w = false) pre).
Proof.
  unfold selectBackend. destruct (decide (force = "")) as [->|Hf].
  - intros H. apply firstSupported_ok in H as (pre & post & Hb & Hs & Hpre).
    split; [rewrite Hb; set_solver|]. split; [done|]. split; [done|].
    intros _. by exists pre, post.
  - intros H. apply forcedBackend_ok in H as (Hin & Hn & Hs). by repeat split.
Qed.

Lemma selectBackend_sound_witness :
  selectBackend (phone "ci_hdrc.0" "") "udc" = Ok UDCBackend
  /\ Supported UDCBackend (phone "ci_hdrc.0" "") = true.
Proof.
  assert (Hs : Supported UDCBackend (phone "ci_hdrc.0" "") = true) by (vm_compute; reflexivity).
  assert (H : selectBackend (phone "ci_hdrc.0" "") "udc" = Ok UDCBackend).
  { change "udc" with (Name UDCBackend).
    rewrite selectBackend_forced_known; [by rewrite Hs|].
    apply list_elem_of_further, list_elem_of_here. }
  split; [exact H|]. exact (proj1 (proj2 (selectBackend_sound _ _ _ H))).
Defined.

(** *** The UDC backend is supported exactly when it finds a LUN file *)


(** *** The gadget configfs.go works on is bound *)

Lemma findGadgetRoot_active (w : world) (g : string) :
  ConfigFS.findGadgetRoot w = Ok g ->
  ConfigFS.Supported w = true
  /\ exists udc, ConfigFS.getUDC w g = Ok udc /\ udc <> ""
                 /\ ConfigFS.reenableUDC g udc = ConfigFS.setUDC g udc.
Proof.
  intros H. destruct (findGadgetRoot_inv _ _ H) as (Hmp & Hd & entries & e & _ & _ & _ & _ & Hu).
  split.
  - unfold ConfigFS.Supported. cbv zeta. by rewrite decide_False.
  - unfold ConfigFS.getUDC. cbv zeta.
    destruct (readFile w (filepath.Join [g; "UDC"])) as [udc|]; [|done].
    exists udc. split; [done|]. split; [done|].
    unfold ConfigFS.reenableUDC. by rewrite decide_False.
Qed.

(** X7. When [findGadgetRoot] of configfs.go returns a gadget, the backend
    reports itself supported and the gadget's [UDC] attribute reads as a
    non-empty name: in [Mount] and [Unmount] the deferred function always
    finds a name to write back. *)
Theorem findGadgetRoot_bound (w : world) (g : string) :
  ConfigFS.findGadgetRoot w = Ok g ->
  ConfigFS.Supported w = true
  /\ exists udc, ConfigFS.getUDC w g = Ok udc /\ udc <> ""
                 /\ ConfigFS.reenableUDC g udc = ConfigFS.setUDC g udc.
Proof. apply findGadgetRoot_active. Qed.

Lemma findGadgetRoot_bound_witness :
  ConfigFS.findGadgetRoot (phone "ci_hdrc.0" "") = Ok "/config/usb_gadget/g1"
  /\ ConfigFS.Supported (phone "ci_hdrc.0" "") = true.
Proof.
  assert (H : ConfigFS.findGadgetRoot (phone "ci_hdrc.0" "") = Ok "/config/usb_gadget/g1")
    by (vm_compute; reflexivity).
  split; [exact H|]. exact (proj1 (findGadgetRoot_bound _ _ H)).
Defined.

(** *** The chain of links validateSafePath walks *)

(** X2. When [validateSafePath] returns, it has accepted the path exactly when
    no path on the chain of links that starts at it has a deny-list
    prefix, the chain ending at a path that is no link; and it has
    rejected it with the deny-list entry of a path on the chain. *)
Theorem validateSafePath_chain (fuel : nat) (w : world) (path : string)
    (r : result error unit) :
  validateSafePath fuel w path = Some r ->
  (r = Ok tt
   /\ (forall q, rtc (follows w) path q -> findDangerous q = None)
   /\ exists q e, rtc (follows w) path q /\ Namei.os_Readlink w q = Err e)
  \/ (exists q dangerous,
        rtc (follows w) path q /\ findDangerous q = Some dangerous
        /\ r = Err (Errorf ("cannot mount files from system directory: " +:+ dangerous))).
Proof.
  revert path. induction fuel as [|n IH]; intros path; simpl; [done|].
  destruct (findDangerous path) as [d|] eqn:Hd.
  - intros [= <-]. right. exists path, d. by split; [apply rtc_refl|].
  - destruct (Namei.os_Readlink w path) as [t|e] eqn:Hl.
    + set (next := if filepath.IsAbs t then t else filepath.Join [filepath.Dir path; t]).
      assert (Hnext : follows w path next) by (by exists t).
      intros H. assert (H' : validateSafePath n w next = Some r).
      { unfold next. by destruct (filepath.IsAbs t). }
      destruct (IH _ H') as [(-> & Hall & q & e & Hq & He)|(q & d & Hq & Hqd & ->)].
      * left. split; [done|]. split.
        -- intros q' Hq'. apply rtc_inv in Hq' as [<-|(m & Hm & Hq')]; [done|].
           rewrite (follows_next _ _ _ _ Hm Hnext) in Hq'. by apply Hall.
        -- exists q, e. split; [by eapply rtc_l|done].
      * right. exists q, d. split; [by eapply rtc_l|done].
    + intros [= <-]. left. split; [done|]. split.
      * intros q Hq. apply rtc_inv in Hq as [<-|(m & (t & Ht & _) & _)]; [done|].
        by rewrite Hl in Ht.
      * exists path, e. by split; [apply rtc_refl|].
Qed.

Lemma validateSafePath_chain_witness :
  validateSafePath 2 linked "/sdcard/link.iso" = Some (Ok tt)
  /\ findDangerous "/sdcard/images/x.iso" = None.
Proof.
  assert (H : validateSafePath 2 linked "/sdcard/link.iso" = Some (Ok tt))
    by (vm_compute; reflexivity).
  split; [exact H|].
  destruct (validateSafePath_chain _ _ _ _ H) as [(_ & Hall & _)|(q & d & _ & _ & Hr)];
    [|discriminate Hr].
  apply Hall. apply rtc_once. exists "images/x.iso". split; vm_compute; reflexivity.
Defined.

(** X3. The path [validateImage] accepts is, made absolute, free of deny-list
    prefixes along the chain of links [validateSafePath] walks, and leads,
    the symbolic links on it followed, to a regular file that is not
    empty. *)
Theorem validateImage_accepted (fuel : nat) (w : world) (path : string) :
  validateImage fuel w path = Some (Ok tt) ->
  let absPath := Abs w path in
  filepath.IsAbs absPath = true
  /\ (forall q, rtc (follows w) absPath q -> findDangerous q = None)
  /\ exists d, leadsTo w absPath (VFile d) /\ d <> "".
Proof.
  unfold validateImage. cbv zeta.
  destruct (validateSafePath fuel w (Abs w path)) as [[[]|e]|] eqn:Hs; try done.
  intros H. split; [apply IsAbs_Abs|]. split.
  - by destruct (validateSafePath_chain _ _ _ _ Hs) as [(_ & Hall & _)|(q & d & _ & _ & Hr)].
  - destruct (Namei.os_Stat w (Abs w path)) as [info|e] eqn:Hst.
    + apply Stat_inv in Hst as [(d & Hd & ->)|(names & _ & ->)]; [|done].
      exists d. split; [done|]. by destruct d.
    + by destruct e as [? ? []| |].
Qed.

(** The links of the chain are those at the end of a path: an image
    behind a link to a directory is accepted wherever the directory is. *)
Lemma validateImage_accepted_witness :
  validateImage 1 linked "d/secret.img" = Some (Ok tt)
  /\ exists d, leadsTo linked "/sdcard/d/secret.img" (VFile d) /\ d <> "".
Proof.
  assert (H : validateImage 1 linked "d/secret.img" = Some (Ok tt))
    by (vm_compute; reflexivity).
  split; [exact H|]. exact (proj2 (proj2 (validateImage_accepted _ _ _ H))).
Defined.

(** ** The commands of main.go *)

(** *** Unmount, then Status *)








(** *** The unmount command *)



(** *** Dry runs *)

(** X10. With [--dry-run] neither [mount] nor [unmount] changes anything,
    whatever their result. *)
Theorem dry_run_changes_nothing (unmarshal : string -> result error Config) (fuel : nat)
    (fl : MountFlags) (args : list string) (ufl : UnmountFlags) (w : world) :
  (mountDryRun fl = true ->
   forall r w', mountRunE unmarshal fuel fl args w = Some (r, w') -> w' = w)
  /\ (unmountDryRun ufl = true -> snd (unmountRunE ufl w) = w).
Proof.
  split.
  - intros Hdry r w'. unfold mountRunE. rewrite Hdry.
    destruct (mountRequest unmarshal fl args w) as [req|]; [|by intros [= _ <-]].
    destruct (useCDROM req && readWrite req); [by intros [= _ <-]|].
    destruct (mountRO fl && mountRW fl); [by intros [= _ <-]|].
    destruct (validateImage fuel w (imagePath req)) as [[[]|]|]; [|by intros [= _ <-]|done].
    destruct (selectBackend w (forceBackend req)); by intros [= _ <-].
  - intros Hdry. unfold unmountRunE. rewrite Hdry.
    by destruct (selectBackend w (unmountForce ufl)).
Qed.

(** *** Conflicting flags *)

(** X11. With both [--ro] and [--rw], [mount] fails before the image is
    validated: with the error of the request when there is one (no file
    argument, a configuration that does not load), else with the
    conflicting-flags error; the world is as it was. *)
Theorem ro_with_rw_rejected (unmarshal : string -> result error Config) (fuel : nat)
    (fl : MountFlags) (args : list string) (w : world) :
  mountRO fl = true -> mountRW fl = true ->
  mountRunE unmarshal fuel fl args w
  = Some (match mountRequest unmarshal fl args w with
          | Err e => Err e
          | Ok _ => Err (Errorf "cannot use -ro with -rw (conflicting flags)")
          end, w).
Proof.
  intros Hro Hrw. unfold mountRunE.
  destruct (mountRequest unmarshal fl args w) as [req|] eqn:Hreq; [|done].
  assert (Hc : useCDROM req && readWrite req = false).
  { unfold mountRequest in Hreq.
    destruct (negb (bool_decide (mountConfig fl = ""))).
    - destruct (loadConfig unmarshal w (mountConfig fl)) as [cfg|]; [|done].
      injection Hreq as <-. simpl.
      destruct (decide (cfgMode cfg = "ro")); [done|].
      by destruct (decide (cfgMode cfg = "cdrom")).
    - destruct args; [done|]. injection Hreq as <-. simpl. rewrite Hro. apply andb_false_r. }
  by rewrite Hc, Hro, Hrw.
Qed.

Lemma ro_with_rw_rejected_witness :
  mountRunE noJSON 5
    {| mountRO := true; mountRW := true; mountCDROM := true; mountForce := "";
       mountVerbose := false; mountDryRun := false; mountConfig := "" |}
    ["/sdcard/x.iso"] (phone "ci_hdrc.0" "")
  = Some (Err (Errorf "cannot use -ro with -rw (conflicting flags)"), phone "ci_hdrc.0" "").
Proof.
  exact (ro_with_rw_rejected noJSON 5
           {| mountRO := true; mountRW := true; mountCDROM := true; mountForce := "";
              mountVerbose := false; mountDryRun := false; mountConfig := "" |}
           ["/sdcard/x.iso"] (phone "ci_hdrc.0" "") eq_refl eq_refl).
Defined.

(** ** Further properties of the backends *)

(** *** configfs.go: the mode Status reports *)

Lemma mountSteps_flags w1 g c p opts w2 :
  g <> "" ->
  ConfigFS.mountSteps g c p opts w1 = (Ok tt, w2) ->
  at_ w2 (cdromOf g) = VFile (flag (CDROM opts) +:+ nl)
  /\ at_ w2 (roOf g) = VFile (flag (negb (ReadWrite opts)) +:+ nl).
Proof.
  intros Hg H. unfold ConfigFS.mountSteps in H. cbv zeta in H.
  fold (msRoot g) in H. fold (cdromOf g) in H. fold (roOf g) in H.
  apply bind_inv in H as ([] & wa & Ha & H).
  apply bind_inv in H as ([] & wb & Hb & H).
  apply bind_inv in H as ([] & wc & Hc & H). apply wrap_inv in Hc.
  apply bind_inv in H as ([] & wd & Hd & H). apply wrap_inv in Hd.
  apply bind_inv in H as ([] & we & He & H). apply wrap_inv in He.
  apply bind_inv in H as ([] & wf & Hf & H). apply wrap_inv in Hf.
  apply wrap_inv, try_inv in H as [_ ->].
  pose proof (holds_here _ _ _ (writeFile_at _ _ _ _ Hd)) as HC.
  pose proof (holds_here _ _ _ (writeFile_at _ _ _ _ He)) as HR.
  over HC He ltac:(apply writeFile_keeps; unfold cdromOf, roOf, msRoot; paths;
                   [no_prefix|no_child]).
  over HC Hf ltac:(apply writeFile_keeps; unfold cdromOf, roOf, msRoot; paths;
                   [no_prefix|no_child]).
  over HR Hf ltac:(apply writeFile_keeps; unfold cdromOf, roOf, msRoot; paths;
                   [no_prefix|no_child]).
  split; [by apply holds_at in HC|by apply holds_at in HR].
Qed.

Lemma ConfigFS_Mount_flags w p opts w' :
  ConfigFS.Mount p opts w = (Ok tt, w') ->
  exists g,
    ConfigFS.findGadgetRoot w' = Ok g
    /\ at_ w' (cdromOf g) = VFile (flag (CDROM opts) +:+ nl)
    /\ at_ w' (roOf g) = VFile (flag (negb (ReadWrite opts)) +:+ nl).
Proof.
  intros H. unfold ConfigFS.Mount in H.
  apply bind_inv in H as (g & w0 & Hg & H). apply wrap_inv, try_inv in Hg as [Hg ->].
  apply bind_inv in H as (c & w0 & Hc & H). apply wrap_inv, try_inv in Hc as [Hc ->].
  apply bind_inv in H as (udc & w0 & Hu & H). apply wrap_inv, try_inv in Hu as [Hu ->].
  apply bind_inv in H as ([] & w1 & Hset & H). apply wrap_inv in Hset.
  apply defer_inv in H as (w2 & Hsteps & ->).
  pose proof (findGadgetRoot_nonempty _ _ Hg) as Hgne.
  pose proof (findConfigRoot_inv _ _ _ Hc) as Hcf.
  pose proof (setUDC_holds _ _ _ _ Hset) as [He1 Hat1].
  assert (HG : is_Some (lookup (root w1) (resolve w1 g))).
  { apply exists_at in Hat1. revert Hat1. paths. apply exists_above. }
  destruct (mountSteps_inv _ _ _ _ _ _ Hgne Hcf HG Hsteps) as (Hb & _).
  destruct (mountSteps_flags _ _ _ _ _ _ Hgne Hsteps) as (HC & HR).
  rewrite (sameEnv_resolve _ _ _ He1) in Hb.
  pose proof (mountSteps_keeps w g c (VFile ("" +:+ nl)) p opts Hgne Hcf) as Hk.
  exists g.
  destruct (gadget_cycle w g udc _ w1 w2 _ _ (cdromOf g) Hg Hu Hset Hk Hsteps Hb HC)
    as (Hg' & _ & HC').
  { unfold cdromOf, msRoot. paths. no_prefix. }
  { unfold cdromOf, msRoot. paths. no_child. }
  destruct (gadget_cycle w g udc _ w1 w2 _ _ (roOf g) Hg Hu Hset Hk Hsteps Hb HR)
    as (_ & _ & HR').
  { unfold roOf, msRoot. paths. no_prefix. }
  { unfold roOf, msRoot. paths. no_child. }
  done.
Qed.

Lemma TrimSpace_flag b : TrimSpace (flag b +:+ nl) = flag b.
Proof. by destruct b. Qed.

Lemma ConfigFS_Status_full w p opts w' :
  p <> "" ->
  ConfigFS.Mount p opts w = (Ok tt, w') ->
  ConfigFS.Status w'
  = {| Mounted := true; File := p;
       ReadOnly := negb (ReadWrite opts); CDROM_ := CDROM opts |}.
Proof.
  intros Hne H.
  destruct (ConfigFS_Mount_inv _ _ _ _ H) as (g & (Hg & _ & HL) & Htrim & HM).
  destruct (ConfigFS_Mount_flags _ _ _ _ H) as (g' & Hg' & HC & HR).
  rewrite Hg in Hg'. injection Hg' as <-.
  pose proof (findGadgetRoot_nonempty _ _ Hg) as Hgne.
  unfold ConfigFS.Status. rewrite Hg. cbv zeta.
  assert (Hd : dirExists w' (filepath.Join [g; "functions"; "mass_storage.0"]) = true).
  { apply dirExists_at. rewrite (at_resolve _ _ (msRoot g)); [done|].
    unfold msRoot. by paths. }
  rewrite Hd. simpl negb. cbv iota.
  assert (Hr : forall name d,
             at_ w' (filepath.Join [filepath.Join [msRoot g; "lun.0"]; name]) = VFile d ->
             validName name = true ->
             readFile w' (filepath.Join [filepath.Join
               [filepath.Join [g; "functions"; "mass_storage.0"]; "lun.0"]; name])
             = Ok (TrimSpace d)).
  { intros name d Hat Hn. unfold readFile, os_ReadFile.
    rewrite (at_resolve _ _ (filepath.Join [filepath.Join [msRoot g; "lun.0"]; name])).
    - by rewrite Hat.
    - unfold msRoot. by paths. }
  rewrite (Hr "file" _ HL eq_refl), (Hr "cdrom" _ HC eq_refl), (Hr "ro" _ HR eq_refl).
  rewrite TrimSpace_app_nl, Htrim, !TrimSpace_flag. rewrite decide_False by done.
  simpl. by destruct (ReadWrite opts), (CDROM opts).
Qed.

(** X12. After a [Mount] of configfs.go that succeeded, [Status] reports the
    image path and the mode it was mounted in: read-only unless
    [ReadWrite] was set, CD-ROM when [CDROM] was. *)
Theorem ConfigFS_Status_reports_mode (w : world) (p : string) (opts : MountOptions)
    (w' : world) :
  p <> "" ->
  ConfigFS.Mount p opts w = (Ok tt, w') ->
  ConfigFS.Status w'
  = {| Mounted := true; File := p;
       ReadOnly := negb (ReadWrite opts); CDROM_ := CDROM opts |}.
Proof. apply ConfigFS_Status_full. Qed.

Lemma ConfigFS_Status_reports_mode_witness :
  ConfigFS.Status (mounted (phone "ci_hdrc.0" ""))
  = {| Mounted := true; File := "/sdcard/x.iso"; ReadOnly := false; CDROM_ := false |}.
Proof.
  apply (ConfigFS_Status_reports_mode (phone "ci_hdrc.0" "") "/sdcard/x.iso" rwOpts).
  - done.
  - vm_compute. reflexivity.
Defined.

(** *** The status command *)

(** X13. After a [Mount] of configfs.go that succeeded, the [status] command
    prints the configfs backend, the image path and the mode of the
    mount. *)
Theorem status_after_configfs_mount (w : world) (p : string) (opts : MountOptions)
    (w' : world) :
  p <> "" ->
  ConfigFS.Mount p opts w = (Ok tt, w') ->
  statusRunE w'
  = "Backend: configfs" +:+ nl
    +:+ "Status: Mounted" +:+ nl
    +:+ "File: " +:+ p +:+ nl
    +:+ "Mode: " +:+ getMode (ReadWrite opts) (CDROM opts) +:+ nl.
Proof.
  intros Hne H. pose proof (ConfigFS_Status_full _ _ _ _ Hne H) as Hst.
  destruct (ConfigFS_Mount_inv _ _ _ _ H) as (g & (Hg & _) & _).
  destruct (findGadgetRoot_active _ _ Hg) as [Hs _].
  unfold statusRunE, statusReport.
  change (Supported ConfigFSBackend w') with (ConfigFS.Supported w').
  change (Status ConfigFSBackend w') with (ConfigFS.Status w').
  rewrite Hs, Hst. simpl negb. cbv iota. cbv zeta. simpl Mounted. cbv iota.
  simpl File. simpl ReadOnly. simpl CDROM_. rewrite negb_involutive. reflexivity.
Qed.

Lemma status_after_configfs_mount_witness :
  statusRunE (mounted (phone "ci_hdrc.0" ""))
  = "Backend: configfs" +:+ nl
    +:+ "Status: Mounted" +:+ nl
    +:+ "File: " +:+ "/sdcard/x.iso" +:+ nl
    +:+ "Mode: " +:+ getMode (ReadWrite rwOpts) (CDROM rwOpts) +:+ nl.
Proof.
  apply (status_after_configfs_mount (phone "ci_hdrc.0" "") "/sdcard/x.iso" rwOpts).
  - done.
  - vm_compute. reflexivity.
Defined.

(** *** udc.go changes the content of its LUN file and nothing else *)

Lemma sameShape_refl w : sameShape w w.
Proof. split; [done|]. intros p. by destruct (at_ w p). Qed.




Lemma onlyContent_refl f w : onlyContent f w w.
Proof. split; [apply sameShape_refl|done]. Qed.








(** *** sysfs.go: is USB enabled again? *)

Lemma sysfs_writes_outcome (a b c d : string) file features w r w1 :
  fst (Sysfs.setEnabled false w) = Ok tt ->
  (wrap a (Sysfs.setEnabled false) ;;;
   wrap b (writeFile Sysfs.sysfsFile file) ;;;
   wrap c (writeFile Sysfs.sysfsFeatures features) ;;;
   wrap d (Sysfs.setEnabled true))%go w = (r, w1) ->
  match r with
  | Ok _ =>
      at_ w1 Sysfs.sysfsEnable = VFile ("1" +:+ nl)
      /\ at_ w1 Sysfs.sysfsFile = VFile (file +:+ nl)
      /\ at_ w1 Sysfs.sysfsFeatures = VFile (features +:+ nl)
  | Err e =>
      at_ w1 Sysfs.sysfsEnable = VFile ("0" +:+ nl)
      /\ exists cause, e = Wrapf b cause \/ e = Wrapf c cause
  end.
Proof.
  intros H0. unfold bind, wrap, Sysfs.setEnabled in *.
  destruct (writeFile Sysfs.sysfsEnable (flag false) w) as [[[]|e] wa] eqn:Ha; [|done].
  pose proof (holds_here _ _ _ (writeFile_at _ _ _ _ Ha)) as HE.
  destruct (writeFile Sysfs.sysfsFile file wa) as [[[]|e] wb] eqn:Hb.
  - over HE Hb ltac:(apply writeFile_keeps; apart).
    pose proof (holds_here _ _ _ (writeFile_at _ _ _ _ Hb)) as HF.
    destruct (writeFile Sysfs.sysfsFeatures features wb) as [[[]|e] wc] eqn:Hc.
    + over HE Hc ltac:(apply writeFile_keeps; apart).
      over HF Hc ltac:(apply writeFile_keeps; apart).
      pose proof (holds_here _ _ _ (writeFile_at _ _ _ _ Hc)) as HX.
      destruct (writeFile_ok Sysfs.sysfsEnable (flag true) wc _ (holds_at _ _ _ _ HE))
        as [wd Hd].
      rewrite Hd. intros [= <- <-].
      over HF Hd ltac:(apply writeFile_keeps; apart).
      over HX Hd ltac:(apply writeFile_keeps; apart).
      split; [by apply writeFile_at in Hd|].
      split; [by apply holds_at in HF|by apply holds_at in HX].
    + over HE Hc ltac:(apply writeFile_keeps; apart).
      intros [= <- <-]. split; [by apply holds_at in HE|]. exists e. by right.
  - over HE Hb ltac:(apply writeFile_keeps; apart).
    intros [= <- <-]. split; [by apply holds_at in HE|]. exists e. by left.
Qed.

(** X16. sysfs.go re-enables USB at the end of its steps, not in a deferred
    function: when the write that disables USB has succeeded, the
    [enable] attribute reads [1] after a [Mount] or [Unmount] that
    succeeds, with the [functions] attribute reading [mass_storage] or
    [mtp], and reads [0] after one that fails. *)
Theorem Sysfs_enable_after (w : world) (p : string) (opts : MountOptions) :
  fst (Sysfs.setEnabled false w) = Ok tt ->
  (forall r w', Sysfs.Mount p opts w = (r, w') ->
     match r with
     | Ok _ => readFile w' Sysfs.sysfsEnable = Ok "1"
               /\ readFile w' Sysfs.sysfsFeatures = Ok "mass_storage"
     | Err _ => readFile w' Sysfs.sysfsEnable = Ok "0"
     end)
  /\ (forall r w', Sysfs.Unmount w = (r, w') ->
        match r with
        | Ok _ => readFile w' Sysfs.sysfsEnable = Ok "1"
                  /\ readFile w' Sysfs.sysfsFeatures = Ok "mtp"
        | Err _ => readFile w' Sysfs.sysfsEnable = Ok "0"
        end).
Proof.
  intros H0. split; intros r w' H; apply (sysfs_writes_outcome _ _ _ _ _ _ _ _ _ H0) in H;
    destruct r as [[]|e].
  - destruct H as (HE & _ & HX). by rewrite (readFile_at _ _ _ HE), (readFile_at _ _ _ HX).
  - destruct H as (HE & _). by rewrite (readFile_at _ _ _ HE).
  - destruct H as (HE & _ & HX). by rewrite (readFile_at _ _ _ HE), (readFile_at _ _ _ HX).
  - destruct H as (HE & _). by rewrite (readFile_at _ _ _ HE).
Qed.

Lemma Sysfs_enable_after_witness :
  fst (Sysfs.Mount "/sdcard/x.iso" rwOpts noLun)
  = Err (Wrapf "set image file" (PathError "open" Sysfs.sysfsFile ENOENT))
  /\ readFile (snd (Sysfs.Mount "/sdcard/x.iso" rwOpts noLun)) Sysfs.sysfsEnable = Ok "0".
Proof.
  assert (Hr : fst (Sysfs.Mount "/sdcard/x.iso" rwOpts noLun)
               = Err (Wrapf "set image file" (PathError "open" Sysfs.sysfsFile ENOENT)))
    by (vm_compute; reflexivity).
  split; [exact Hr|].
  assert (H0 : fst (Sysfs.setEnabled false noLun) = Ok tt) by (vm_compute; reflexivity).
  pose proof (proj1 (Sysfs_enable_after noLun "/sdcard/x.iso" rwOpts H0)
                (fst (Sysfs.Mount "/sdcard/x.iso" rwOpts noLun))
                (snd (Sysfs.Mount "/sdcard/x.iso" rwOpts noLun))
                (surjective_pairing _)) as H.
  rewrite Hr in H. exact H.
Defined.

(** *** configfs.go changes nothing outside the gadget *)

Lemma change_within G w0 op p f :
  (forall t t', is_Some (lookup t G) -> f t (resolve w0 p) = Ok t' ->
                outside G t t' /\ is_Some (lookup t' G)) ->
  keeps (within G w0) (change op p f).
Proof.
  intros Hf w [[He Ho] Hs]. unfold change. rewrite (sameEnv_resolve _ _ _ He).
  destruct (f (root w) (resolve w0 p)) as [t'|e] eqn:E; [|done].
  destruct (Hf _ _ Hs E) as [Ho' Hs']. split; [|done].
  split; [done|]. by eapply outside_trans.
Qed.

Lemma updateAt_within f t G k t' :
  k <> [] -> updateAt f t (G ++ k) = Ok t' -> outside G t t' /\ is_Some (lookup t' G).
Proof.
  intros Hk H. split.
  - apply (updateAt_outside _ _ _ _ _ H); [by apply prefix_app_r|].
    intros Heq. apply Hk. rewrite <- (app_nil_r G) in Heq at 1. by apply app_inv_head in Heq.
  - apply updateAt_lookup in H as (n & _ & Hn). apply (exists_above _ _ k). by rewrite Hn.
Qed.

Lemma writeFile_within G w0 p c k :
  resolve w0 p = G ++ k -> k <> [] -> keeps (within G w0) (writeFile p c).
Proof.
  intros Hp Hk w Hw. unfold writeFile, os_WriteFile.
  apply (change_within G w0 "open" p (updateAt (writeNode (c +:+ nl)))); [|exact Hw].
  intros t t' _ H. rewrite Hp in H. by apply (updateAt_within _ _ _ _ _ Hk H).
Qed.

Lemma Symlink_within G w0 target p k :
  resolve w0 p = G ++ k -> k <> [] -> keeps (within G w0) (os_Symlink target p).
Proof.
  intros Hp Hk. apply change_within. intros t t' _ H. rewrite Hp in H.
  by apply (updateAt_within _ _ _ _ _ Hk H).
Qed.

Lemma MkdirAll_within G w0 p k :
  resolve w0 p = G ++ k -> keeps (within G w0) (os_MkdirAll p).
Proof.
  intros Hp. apply change_within. intros t t' Hs H. rewrite Hp in H. split.
  - apply (mkdirAll_outside _ _ _ _ H); [by apply prefix_app_r|done].
  - apply mkdirAll_dir in H as [es Hes]. apply (exists_above _ _ k). by rewrite Hes.
Qed.

Lemma mountSteps_within w0 g c imagePath opts :
  g <> "" ->
  (exists name, validName name = true
                /\ c = filepath.Join [filepath.Join [g; "configs"]; name]) ->
  keeps (within (resolve w0 g) w0) (ConfigFS.mountSteps g c imagePath opts).
Proof.
  intros Hg (name & Hname & ->). unfold ConfigFS.mountSteps. cbv zeta.
  repeat (apply keeps_bind; [|intros _]);
    repeat first [apply keeps_wrap | apply keeps_unless | apply keeps_try].
  - eapply MkdirAll_within. by paths.
  - eapply Symlink_within; [by paths|done].
  - eapply writeFile_within; [by paths|done].
  - eapply writeFile_within; [by paths|done].
  - eapply writeFile_within; [by paths|done].
  - eapply writeFile_within; [by paths|done].
Qed.

Lemma unmountSteps_within w0 g :
  g <> "" -> keeps (within (resolve w0 g) w0) (ConfigFS.unmountSteps g).
Proof.
  intros Hg. unfold ConfigFS.unmountSteps. cbv zeta.
  repeat (apply keeps_bind; [|intros _]);
    repeat first [apply keeps_wrap | apply keeps_unless | apply keeps_try].
  eapply writeFile_within; [by paths|done].
Qed.

Lemma setUDC_within w0 g udc :
  g <> "" -> keeps (within (resolve w0 g) w0) (ConfigFS.setUDC g udc).
Proof.
  intros Hg. unfold ConfigFS.setUDC. cbv zeta. eapply writeFile_within; [by paths|done].
Qed.

Lemma reenableUDC_within w0 g udc :
  g <> "" -> keeps (within (resolve w0 g) w0) (ConfigFS.reenableUDC g udc).
Proof.
  intros Hg. unfold ConfigFS.reenableUDC.
  destruct (decide (udc = "")); [apply keeps_ret|by apply setUDC_within].
Qed.

Lemma gadget_exists w g :
  ConfigFS.findGadgetRoot w = Ok g -> is_Some (lookup (root w) (resolve w g)).
Proof.
  intros H. pose proof (findGadgetRoot_nonempty _ _ H) as Hg.
  destruct (findGadgetRoot_inv _ _ H) as (_ & _ & _ & _ & _ & _ & _ & _ & Hu).
  destruct (readFile w (filepath.Join [g; "UDC"])) as [udc|] eqn:Hr; [|done].
  apply readFile_inv in Hr as (d & Hat & _). apply exists_at in Hat.
  revert Hat. paths. apply exists_above.
Qed.

Lemma gadget_cycle_within {A} w g udc (steps : M A) :
  ConfigFS.findGadgetRoot w = Ok g ->
  keeps (within (resolve w g) w) steps ->
  within (resolve w g) w
    (snd (match ConfigFS.setUDC g "" w with
          | (Ok _, w1) => defer (ConfigFS.reenableUDC g udc) steps w1
          | (Err e, w1) => (Err (Wrapf "disable UDC" e), w1)
          end)).
Proof.
  intros Hg Hk. pose proof (findGadgetRoot_nonempty _ _ Hg) as Hgne.
  assert (H0 : within (resolve w g) w w) by (split; [apply below_refl|by apply gadget_exists]).
  pose proof (setUDC_within w g "" Hgne w H0) as H1.
  destruct (ConfigFS.setUDC g "" w) as [[[]|e] w1]; simpl in H1; [|done].
  unfold defer. pose proof (Hk w1 H1) as H2.
  destruct (steps w1) as [r w2]. simpl in *.
  by apply (reenableUDC_within w g udc Hgne).
Qed.

Lemma ConfigFS_Mount_within w g p opts :
  ConfigFS.findGadgetRoot w = Ok g ->
  below (resolve w g) w (snd (ConfigFS.Mount p opts w)).
Proof.
  intros Hg. pose proof (findGadgetRoot_nonempty _ _ Hg) as Hgne.
  destruct (ConfigFS.findConfigRoot w g) as [c|e] eqn:Hc.
  - destruct (ConfigFS.getUDC w g) as [udc|e] eqn:Hu.
    + rewrite (Mount_run w g c udc p opts Hg Hc Hu).
      apply (gadget_cycle_within w g udc _ Hg).
      apply mountSteps_within; [done|]. by apply (findConfigRoot_inv w).
    + unfold ConfigFS.Mount, bind, wrap, try. rewrite Hg, Hc, Hu. apply below_refl.
  - unfold ConfigFS.Mount, bind, wrap, try. rewrite Hg, Hc. apply below_refl.
Qed.

Lemma ConfigFS_Unmount_within w g :
  ConfigFS.findGadgetRoot w = Ok g ->
  below (resolve w g) w (snd (ConfigFS.Unmount w)).
Proof.
  intros Hg. pose proof (findGadgetRoot_nonempty _ _ Hg) as Hgne.
  destruct (ConfigFS.getUDC w g) as [udc|e] eqn:Hu.
  - rewrite (Unmount_run w g udc Hg Hu).
    apply (gadget_cycle_within w g udc _ Hg). by apply unmountSteps_within.
  - unfold ConfigFS.Unmount, bind, wrap, try. rewrite Hg, Hu. apply below_refl.
Qed.

(** X17. Whatever they return, [Mount] and [Unmount] of configfs.go leave every
    path that does not lead into the directory of the gadget they found
    showing what it showed; when no gadget is found they change
    nothing. *)
Theorem ConfigFS_changes_inside_gadget (w : world) (p : string) (opts : MountOptions) :
  match ConfigFS.findGadgetRoot w with
  | Ok g =>
      (forall q, ~ resolve w g `prefix_of` resolve w q ->
                 at_ (snd (ConfigFS.Mount p opts w)) q = at_ w q)
      /\ (forall q, ~ resolve w g `prefix_of` resolve w q ->
                    at_ (snd (ConfigFS.Unmount w)) q = at_ w q)
  | Err e =>
      ConfigFS.Mount p opts w = (Err (Wrapf "find gadget" e), w)
      /\ ConfigFS.Unmount w = (Err (Wrapf "find gadget" e), w)
  end.
Proof.
  destruct (ConfigFS.findGadgetRoot w) as [g|e] eqn:Hg.
  - split; intros q Hq; apply (below_at (resolve w g)); try done.
    + by apply ConfigFS_Mount_within.
    + by apply ConfigFS_Unmount_within.
  - unfold ConfigFS.Mount, ConfigFS.Unmount, bind, wrap, try. by rewrite Hg.
Qed.

(** *** The mount command *)




(** *** The request a configuration file makes *)

(** X19. With [-c], the request comes from the configuration alone: its file
    is an absolute path, its backend one that [loadConfig] accepts, and
    its mode decides: [cdrom] asks for a CD-ROM that is read-only, [ro]
    for read-only, and an empty mode or [rw] for read-write; it never
    asks for a CD-ROM that is read-write. *)
Theorem config_request (unmarshal : string -> result error Config) (fl : MountFlags)
    (args : list string) (w : world) (req : MountRequest) :
  mountConfig fl <> "" ->
  mountRequest unmarshal fl args w = Ok req ->
  exists cfg,
    loadConfig unmarshal w (mountConfig fl) = Ok cfg
    /\ imagePath req = cfgFile cfg /\ filepath.IsAbs (imagePath req) = true
    /\ forceBackend req = cfgBackend cfg
    /\ forceBackend req ∈ [""; "configfs"; "sysfs"; "legacy"]
    /\ useCDROM req = bool_decide (cfgMode cfg = "cdrom")
    /\ readWrite req = bool_decide (cfgMode cfg = "" \/ cfgMode cfg = "rw")
    /\ useCDROM req && readWrite req = false.
Proof.
  intros Hc H. unfold mountRequest in H.
  rewrite bool_decide_eq_false_2 in H by done. simpl in H.
  destruct (loadConfig unmarshal w (mountConfig fl)) as [cfg|] eqn:Hl; [|done].
  injection H as <-. simpl.
  destruct (loadConfig_inv _ _ _ _ Hl) as (Habs & Hm & Hb & _).
  exists cfg. do 5 (split; [done|]).
  assert (Hcases : cfgMode cfg = "" \/ cfgMode cfg = "ro" \/ cfgMode cfg = "rw"
                   \/ cfgMode cfg = "cdrom").
  { rewrite !elem_of_cons, elem_of_nil in Hm. destruct Hm as [?|[?|[?|[?|[]]]]]; auto. }
  destruct Hcases as [E|[E|[E|E]]]; rewrite E; simpl;
    repeat split; try done; symmetry;
    first [ apply bool_decide_eq_true_2; by auto
          | apply bool_decide_eq_false_2; by intros [?|?] ].
Qed.

Lemma config_request_witness :
  mountRequest cdromConfig
    {| mountRO := false; mountRW := false; mountCDROM := false; mountForce := "";
       mountVerbose := false; mountDryRun := false; mountConfig := "/sdcard/x.iso" |}
    [] (phone "" "")
  = Ok {| imagePath := "/sdcard/x.iso"; readWrite := false; useCDROM := true;
          forceBackend := "sysfs" |}
  /\ filepath.IsAbs "/sdcard/x.iso" = true.
Proof.
  pose (fl := {| mountRO := false; mountRW := false; mountCDROM := false; mountForce := "";
                 mountVerbose := false; mountDryRun := false;
                 mountConfig := "/sdcard/x.iso" |}).
  assert (H : mountRequest cdromConfig fl [] (phone "" "")
              = Ok {| imagePath := "/sdcard/x.iso"; readWrite := false; useCDROM := true;
                      forceBackend := "sysfs" |}) by (vm_compute; reflexivity).
  split; [exact H|].
  assert (Hc : mountConfig fl <> "") by done.
  destruct (config_request cdromConfig fl [] (phone "" "") _ Hc H) as (cfg & _ & _ & Ha & _).
  exact Ha.
Defined.

(** *** udc.go: no way back from a failed verification *)




(** *** The variant that creates gadgets: a gadget without configs *)

(** X21. When the gadget is a directory that has no entry [configs],
    [findConfigRoot] of the variant that creates gadgets makes that
    directory, empty, and returns [configs/c.1], which does not exist;
    nothing outside the gadget changes. *)
Theorem findConfigRoot_without_configs (w : world) (gadgetRoot : string)
    (names : list string) :
  gadgetRoot <> "" ->
  at_ w gadgetRoot = VDir names ->
  at_ w (filepath.Join [gadgetRoot; "configs"]) = VNone ->
  exists w',
    ConfigFSCreate.findConfigRoot gadgetRoot w
    = (Ok (filepath.Join [filepath.Join [gadgetRoot; "configs"]; "c.1"]), w')
    /\ at_ w' (filepath.Join [gadgetRoot; "configs"]) = VDir []
    /\ at_ w' (filepath.Join [filepath.Join [gadgetRoot; "configs"]; "c.1"]) = VNone
    /\ below (resolve w gadgetRoot) w w'.
Proof.
  intros Hg Hdir Hnone.
  assert (Hes : exists es, lookup (root w) (resolve w gadgetRoot) = Some (Dir es)).
  { unfold at_, look in Hdir.
    destruct (lookup (root w) (resolve w gadgetRoot)) as [[|es|]|]; try done. by exists es. }
  destruct Hes as [es Hes].
  assert (Has : assoc "configs" es = None).
  { unfold at_, look in Hnone. revert Hnone. paths.
    rewrite lookup_path_app, Hes. simpl. by destruct (assoc "configs" es) as [[| |]|]. }
  destruct (MkdirAll_graft w (resolve w gadgetRoot) ["configs"]
              (filepath.Join [gadgetRoot; "configs"])
              (Dir es) (Dir (put "configs" (Dir []) es)) Hes) as (w1 & R1 & L1 & B1).
  { by paths. }
  { simpl. by rewrite Has. }
  pose proof B1 as [E1 _].
  assert (Hc : at_ w1 (filepath.Join [gadgetRoot; "configs"]) = VDir []).
  { unfold at_, look. rebase E1. paths. rewrite lookup_path_app, L1. simpl.
    by rewrite assoc_put_eq. }
  assert (Hc1 : at_ w1 (filepath.Join [filepath.Join [gadgetRoot; "configs"]; "c.1"]) = VNone).
  { unfold at_, look. rebase E1. paths.
    change ["configs"; "c.1"] with (["configs"] ++ ["c.1"]).
    rewrite app_assoc, !lookup_path_app, L1. simpl. by rewrite assoc_put_eq. }
  exists w1. split; [|done].
  unfold ConfigFSCreate.findConfigRoot. cbv zeta.
  unfold bind at 1, unless, dirExists, os_Stat. rewrite Hnone. unfold wrap at 1. rewrite R1.
  unfold bind, wrap, try, os_ReadDir. by rewrite Hc.
Qed.

Lemma findConfigRoot_without_configs_witness :
  fst (ConfigFSCreate.findConfigRoot "/sdcard/dir" (phone "" ""))
  = Ok "/sdcard/dir/configs/c.1".
Proof.
  destruct (findConfigRoot_without_configs (phone "" "") "/sdcard/dir" [])
    as (w' & H & _); [done|vm_compute; reflexivity|vm_compute; reflexivity|].
  rewrite H. vm_compute. reflexivity.
Defined.

(** *** Mounting again *)












(** *** sysfs.go changes nothing outside android0 *)

Lemma writeFile_keeps_below G w0 p c k :
  resolve w0 p = G ++ k -> k <> [] -> keeps (below G w0) (writeFile p c).
Proof.
  intros Hp Hk w [He Ho]. unfold writeFile, os_WriteFile, change.
  change (root (logWrite p (c +:+ nl) w)) with (root w).
  change (resolve (logWrite p (c +:+ nl) w) p) with (resolve w p).
  rewrite (sameEnv_resolve _ _ _ He), Hp.
  destruct (updateAt (writeNode (c +:+ nl)) (root w) (G ++ k)) as [t'|e] eqn:E; [|done].
  split; [done|]. simpl. eapply outside_trans; [exact Ho|].
  by apply (updateAt_within _ _ _ _ _ Hk E).
Qed.

Lemma sysfs_writes_below (a b c d : string) file features w :
  below android0 w
    (snd ((wrap a (Sysfs.setEnabled false) ;;;
           wrap b (writeFile Sysfs.sysfsFile file) ;;;
           wrap c (writeFile Sysfs.sysfsFeatures features) ;;;
           wrap d (Sysfs.setEnabled true))%go w)).
Proof.
  assert (Hk : keeps (below android0 w)
                 (wrap a (Sysfs.setEnabled false) ;;;
                  wrap b (writeFile Sysfs.sysfsFile file) ;;;
                  wrap c (writeFile Sysfs.sysfsFeatures features) ;;;
                  wrap d (Sysfs.setEnabled true))%go).
  { unfold Sysfs.setEnabled.
    repeat (apply keeps_bind; [|intros _]); apply keeps_wrap.
    - by apply (writeFile_keeps_below android0 w _ _ ["enable"]).
    - by apply (writeFile_keeps_below android0 w _ _ ["f_mass_storage"; "lun"; "file"]).
    - by apply (writeFile_keeps_below android0 w _ _ ["functions"]).
    - by apply (writeFile_keeps_below android0 w _ _ ["enable"]). }
  apply Hk, below_refl.
Qed.

(** X23. Whatever they return, [Mount] and [Unmount] of sysfs.go leave every
    path that does not lead into
    [/sys/devices/virtual/android_usb/android0] showing what it showed. *)
Theorem Sysfs_changes_inside_android0 (w : world) (p : string) (opts : MountOptions)
    (q : string) :
  ~ android0 `prefix_of` resolve w q ->
  at_ (snd (Sysfs.Mount p opts w)) q = at_ w q
  /\ at_ (snd (Sysfs.Unmount w)) q = at_ w q.
Proof.
  intros Hq. split; apply (below_at android0); try done; apply sysfs_writes_below.
Qed.

Lemma Sysfs_changes_inside_android0_witness :
  at_ (snd (Sysfs.Mount "/sdcard/x.iso" rwOpts (phone "ci_hdrc.0" ""))) "/config/usb_gadget/g1/UDC"
  = at_ (phone "ci_hdrc.0" "") "/config/usb_gadget/g1/UDC".
Proof.
  refine (proj1 (Sysfs_changes_inside_android0 (phone "ci_hdrc.0" "") "/sdcard/x.iso" rwOpts
                   "/config/usb_gadget/g1/UDC" _)).
  vm_compute. intros [k Hk]. discriminate Hk.
Defined.
